(** * water-mon-app: the browser client [static/code.js]

    A shallow embedding of the three functions of [static/code.js]
    ([format], [update_readings], [getCookie]) together with the part of
    the ECMAScript built-ins they call, the properties of the
    specification proved (or refuted) against that embedding, and further
    properties of the three functions and of the built-ins under them.

    - A JavaScript string is its sequence of UTF-16 code units.
    - A JavaScript Number is an IEEE 754 binary64 value, taken from the
      Standard Library's [SpecFloat] (precision 53, maximal exponent 1024),
      so that [*] and [/] round exactly as the language prescribes;
      [Math.round], [toString] and [toFixed] are computed on the exact
      value with integer arithmetic.
    - A parsed JSON document is a tree of values; objects are finite maps.
      The built-in prototypes are the standard ones.
    - The page is a store: text contents of elements by id, global
      variables, the cookie string and the log of the requests handed to
      [fetch].  Code that can throw runs in a state-and-exception monad in
      which a throw keeps the writes made before it.  The file is a
      classic script, so an assignment to an undeclared identifier sets a
      global variable.
    - The callbacks of the promise chain run on the page as the
      invocation left it; what happens between request and response is
      not modelled. *)

From Stdlib Require Import ZArith Ascii String SpecFloat Lia.
From Stdlib Require Import PrimFloat FloatOps.
From stdpp Require Import base decidable option list gmap.

Open Scope Z_scope.

(** ** Strings *)

(** A code unit, and a string as the list of its code units. *)
Abbreviation jschar := N (only parsing).
Abbreviation jsstring := (list N) (only parsing).

(** The string with the code units of an ASCII literal. *)
Fixpoint js (s : string) : jsstring :=
  match s with
  | EmptyString => []
  | String c s' => N_of_ascii c :: js s'
  end.

(** A string is falsy exactly when it is empty. *)
Definition truthy (s : jsstring) : bool :=
  match s with [] => false | _ :: _ => true end.

(** [s.split(sep)] for a separator of one code unit. *)
Fixpoint split (sep : jschar) (s : jsstring) : list jsstring :=
  match s with
  | [] => [[]]
  | c :: s' =>
      if (c =? sep)%N then [] :: split sep s'
      else match split sep s' with
           | piece :: pieces => (c :: piece) :: pieces
           | [] => [[c]]
           end
  end.

(** White space and line terminators, the code units [trim] removes. *)
Definition is_space (c : jschar) : bool :=
  bool_decide (c ∈ [9; 10; 11; 12; 13; 32; 160; 5760; 8232; 8233; 8239;
                    8287; 12288; 65279]%N)
  || ((8192 <=? c) && (c <=? 8202))%N.

Fixpoint trim_start (s : jsstring) : jsstring :=
  match s with
  | c :: s' => if is_space c then trim_start s' else s
  | [] => []
  end.

(** [s.trim()] *)
Definition trim (s : jsstring) : jsstring :=
  rev (trim_start (rev (trim_start s))).

(** The decimal digit [d] (0 to 9) as a code unit. *)
Definition digit (d : Z) : jschar := (48 + Z.to_N d)%N.

(** The [k] low decimal digits of [s], most significant first. *)
Fixpoint digits (k : nat) (s : Z) : jsstring :=
  match k with
  | O => []
  | S k' => digits k' (s / 10) ++ [digit (s mod 10)]
  end.

(** The number of decimal digits of [n >= 0]: the least [k >= 1] with
    [n < 10^k]. *)
Fixpoint ndigits_from (fuel k : nat) (n : Z) : nat :=
  match fuel with
  | O => k
  | S fuel' => if n <? 10 ^ Z.of_nat k then k else ndigits_from fuel' (S k) n
  end.

Definition ndigits (n : Z) : nat := ndigits_from (Z.to_nat (Z.log2 n)) 1 n.

(** The decimal representation of the integer [n >= 0]. *)
Definition decimal (n : Z) : jsstring := digits (ndigits n) n.

(** ** Completions

    An evaluation either completes normally with a value or throws. *)

Inductive error := TypeError | RangeError | URIError | SyntaxError.

Inductive completion (A : Type) :=
  | Normal (a : A)
  | Throw (err : error).
Arguments Normal {A} a.
Arguments Throw {A} err.

#[global] Instance completion_ret : MRet completion := @Normal.
#[global] Instance completion_bind : MBind completion :=
  fun A B f c => match c with Normal a => f a | Throw err => Throw err end.
#[global] Instance completion_fmap : FMap completion :=
  fun A B f c => match c with Normal a => Normal (f a) | Throw err => Throw err end.

(** ** Numbers *)

Abbreviation number := spec_float (only parsing).

#[global] Instance number_eq_dec : EqDecision spec_float.
Proof. solve_decision. Defined.

Module Number.

Definition prec : Z := 53.
Definition emax : Z := 1024.

Definition nan : number := S754_nan.
Definition opp : number -> number := SFopp.
Definition mul : number -> number -> number := SFmul prec emax.
Definition div : number -> number -> number := SFdiv prec emax.

(** The Number value of the integer [z]. *)
Definition of_Z (z : Z) : number := binary_normalize prec emax z 0 false.

(** The Number value of [m * 10^e]: the nearest binary64, ties to even.
    This is the value of a numeric literal with digits [m] and decimal
    exponent [e]. *)
Definition of_decimal (m e : Z) : number :=
  match m with
  | 0 => S754_zero false
  | _ =>
      if 0 <=? e then binary_normalize prec emax (m * 10 ^ e) 0 false
      else
        let '(q, e', l) :=
          SFdiv_core_binary prec emax (Z.abs m) 0 (10 ^ (- e)) 0 in
        binary_round_aux prec emax (m <? 0) q e' l
  end.

(** [10 ** p] for a non-negative integer [p]: exact up to [p = 22]; beyond
    that the language only asks for an approximation, taken here to be
    the nearest Number. *)
Definition pow10 (p : nat) : number := of_Z (10 ^ Z.of_nat p).

(** A finite non-zero magnitude [m * 2^e] as the fraction
    [numer m e / denom e] of two positive integers. *)
Definition numer (m : positive) (e : Z) : Z := Z.pos m * 2 ^ Z.max e 0.
Definition denom (e : Z) : Z := 2 ^ Z.max (- e) 0.

(** [Math.round]: the nearest integer, a tie going towards +infinity;
    the sign of a zero result is the sign of the argument. *)
Definition round (x : number) : number :=
  match x with
  | S754_finite s m e =>
      if 0 <=? e then x
      else
        let sm := if s then Z.neg m else Z.pos m in
        let z := (2 * sm + 2 ^ (- e)) / 2 ^ (1 - e) in
        if z =? 0 then S754_zero s else of_Z z
  | _ => x
  end.


(** *** Number::toString, radix 10 *)

(** The decade of [x = num / den > 0]: the integer [N] with
    [10^(N-1) <= x < 10^N], found by counting the decimal shifts that
    bring [x] below 1 (for [x >= 1]) or just below it (for [x < 1]); 400
    shifts cover every binary64 magnitude. *)
Fixpoint decade_up (fuel : nat) (num den N : Z) : Z :=
  match fuel with
  | O => N
  | S fuel' =>
      if num <? den then N else decade_up fuel' num (10 * den) (N + 1)
  end.

Fixpoint decade_down (fuel : nat) (num den N : Z) : Z :=
  match fuel with
  | O => N
  | S fuel' =>
      if 10 * num <? den then decade_down fuel' (10 * num) den (N - 1)
      else N
  end.

Definition decade (num den : Z) : Z :=
  if num <? den then decade_down 400 num den 0
  else decade_up 400 num den 0.

Section Shortest.
(** The magnitude [m * 2^e] being printed. *)
Variables (m : positive) (e : Z).

Let x : number := S754_finite false m e.
Let N : Z := decade (numer m e) (denom e).

(** The two neighbours of [x] among the multiples of [10^(N-k)],
    as [t] and [t + 1] with [t = floor (x / 10^(N-k))], and whether [x]
    is nearer to the lower one, to the upper one, or half-way. *)
Definition floor_at (k : nat) : Z :=
  let q := N - Z.of_nat k in
  (numer m e * 10 ^ Z.max (- q) 0) / (denom e * 10 ^ Z.max q 0).

Definition nearer (k : nat) : comparison :=
  let q := N - Z.of_nat k in
  (2 * (numer m e * 10 ^ Z.max (- q) 0))
    ?= (2 * floor_at k + 1) * (denom e * 10 ^ Z.max q 0).

Definition nearest (k : nat) : Z :=
  let t := floor_at k in
  match nearer k with
  | Lt => t
  | Gt => t + 1
  | Eq => if Z.even t then t else t + 1
  end.

(** Does the decimal [t * 10^(N-k)] denote the Number [x]? *)
Definition denotes (k : nat) (t : Z) : bool :=
  bool_decide (of_decimal t (N - Z.of_nat k) = x).

(** A [k]-digit decimal that denotes [x], the nearest to [x] if there
    are two (the even one at a tie). *)
Definition candidate (k : nat) : option Z :=
  let t := floor_at k in
  match denotes k t, denotes k (t + 1) with
  | true, true => Some (nearest k)
  | true, false => Some t
  | false, true => Some (t + 1)
  | false, false => None
  end.

(** [(k, s, n)] with [10^(k-1) <= s < 10^k] whose decimal
    [s * 10^(n-k)] stands for [x]: a candidate that is [10^k] is the
    digit 1 of the next decade. *)
Definition triple (k : nat) (t : Z) : nat * Z * Z :=
  if t =? 10 ^ Z.of_nat k then (k, 10 ^ (Z.of_nat k - 1), N + 1)
  else (k, t, N).

(** The least number of digits [k] (from [k] on, 17 always suffice)
    for which a [k]-digit decimal denotes [x]. *)
Fixpoint shortest_from (fuel k : nat) : nat * Z * Z :=
  match candidate k with
  | Some t => triple k t
  | None =>
      match fuel with
      | O => triple k (nearest k)
      | S fuel' => shortest_from fuel' (S k)
      end
  end.

Definition shortest : nat * Z * Z := shortest_from 16 1.

(** The string of the positive finite Number [x]. *)
Definition toString_finite : jsstring :=
  let '(k, s, n) := shortest in
  let ds := digits k s in
  if (Z.of_nat k <=? n) && (n <=? 21) then
    ds ++ replicate (Z.to_nat (n - Z.of_nat k)) 48%N
  else if (0 <? n) && (n <=? 21) then
    take (Z.to_nat n) ds ++ js "." ++ drop (Z.to_nat n) ds
  else if (-6 <? n) && (n <=? 0) then
    js "0." ++ replicate (Z.to_nat (- n)) 48%N ++ ds
  else
    let c := if n - 1 <? 0 then js "-" else js "+" in
    if (k =? 1)%nat then ds ++ js "e" ++ c ++ decimal (Z.abs (n - 1))
    else take 1 ds ++ js "." ++ drop 1 ds
           ++ js "e" ++ c ++ decimal (Z.abs (n - 1)).
End Shortest.

Definition toString (x : number) : jsstring :=
  match x with
  | S754_nan => js "NaN"
  | S754_zero _ => js "0"
  | S754_infinity s => (if s then js "-" else []) ++ js "Infinity"
  | S754_finite s m e => (if s then js "-" else []) ++ toString_finite m e
  end.

(** *** Number.prototype.toFixed *)

(** [x >= 10^21] for the magnitude [x = m * 2^e]. *)
Definition ge_1e21 (m : positive) (e : Z) : bool :=
  10 ^ 21 * denom e <=? numer m e.

(** The digits of [n / 10^f] in fixed-point notation with [f] digits
    after the point: the decimal representation of [n], filled with
    zeros on the left to [f + 1] digits, with a point before the last
    [f]. *)
Definition fixed_digits (n : Z) (f : nat) : jsstring :=
  let ms := decimal n in
  if (f =? 0)%nat then ms
  else
    let ms := replicate (S f - length ms) 48%N ++ ms in
    let k := length ms in
    take (k - f) ms ++ js "." ++ drop (k - f) ms.

(** [x.toFixed(f)]: throws a RangeError unless [0 <= f <= 100]; a Number
    that is not finite, or one of magnitude at least [10^21], is written
    as [toString] writes it; otherwise the digits are those of the
    integer [n] nearest to [x * 10^f], the larger one at a tie. *)
Definition toFixed (x : number) (f : nat) : completion jsstring :=
  if (100 <? f)%nat then Throw RangeError
  else
    match x with
    | S754_finite s m e =>
        if ge_1e21 m e then Normal (toString x)
        else
          let n := (2 * (numer m e * 10 ^ Z.of_nat f) + denom e)
                     / (2 * denom e) in
          Normal ((if s then js "-" else []) ++ fixed_digits n f)
    | S754_zero _ => Normal (fixed_digits 0 f)
    | _ => Normal (toString x)
    end.

End Number.

(** ** Values

    The values a parsed JSON document is made of, and [undefined].  None
    of them is callable. *)

#[warnings="-register-all"]
Inductive value :=
  | VUndefined
  | VNull
  | VBool (b : bool)
  | VNum (x : number)
  | VStr (s : jsstring)
  | VArr (elems : list value)
  | VObj (props : gmap jsstring value).

(** The index below [len] that the property name [key] writes. *)
Definition index_of (key : jsstring) (len : nat) : option nat :=
  List.find (fun i => bool_decide (decimal (Z.of_nat i) = key)) (seq 0 len).

(** The own property [key] of [v], if it has one: a member of an object,
    an element or the length of an array, a code unit or the length of a
    string. *)
Definition own_property (v : value) (key : jsstring) : option value :=
  match v with
  | VObj props => props !! key
  | VArr elems =>
      if bool_decide (key = js "length")
      then Some (VNum (Number.of_Z (Z.of_nat (length elems))))
      else i ← index_of key (length elems); elems !! i
  | VStr s =>
      if bool_decide (key = js "length")
      then Some (VNum (Number.of_Z (Z.of_nat (length s))))
      else i ← index_of key (length s); c ← s !! i; Some (VStr [c])
  | _ => None
  end.

(** [v.key] for a [key] that the built-in prototypes do not define (none
    of [pH], [T], [ec], [ORP], [Ok] is): the own property or [undefined];
    a TypeError when [v] is [undefined] or [null]. *)
Definition get (v : value) (key : jsstring) : completion value :=
  match v with
  | VUndefined | VNull => Throw TypeError
  | _ => Normal (default VUndefined (own_property v key))
  end.

(** [v.hasOwnProperty(key)]: reading [v.hasOwnProperty] throws on
    [undefined] and [null]; an object with a member of that name yields
    the member, which is not callable; every other value inherits
    [Object.prototype.hasOwnProperty]. *)
Definition hasOwnProperty (v : value) (key : jsstring) : completion bool :=
  match v with
  | VUndefined | VNull => Throw TypeError
  | _ =>
      match own_property v (js "hasOwnProperty") with
      | Some _ => Throw TypeError
      | None => Normal (bool_decide (is_Some (own_property v key)))
      end
  end.

(** *** Conversions *)

(** The value of the digit [c] in the given radix, if it is one. *)
Definition digit_value (radix : Z) (c : jschar) : option Z :=
  let c := Z.of_N c in
  let d := if (48 <=? c) && (c <=? 57) then c - 48
           else if (97 <=? c) && (c <=? 102) then c - 87
           else if (65 <=? c) && (c <=? 70) then c - 55
           else radix in
  if d <? radix then Some d else None.

(** The integer written by a string of digits (with [acc] to its left). *)
Fixpoint digits_value (radix acc : Z) (s : jsstring) : option Z :=
  match s with
  | [] => Some acc
  | c :: s' => d ← digit_value radix c; digits_value radix (radix * acc + d) s'
  end.

Definition integer_literal (radix : Z) (s : jsstring) : option Z :=
  if truthy s then digits_value radix 0 s else None.

(** The longest prefix of decimal digits, and the rest. *)
Fixpoint span_digits (s : jsstring) : jsstring * jsstring :=
  match s with
  | c :: s' =>
      if ((48 <=? c) && (c <=? 57))%N
      then let '(ds, rest) := span_digits s' in (c :: ds, rest)
      else ([], s)
  | [] => ([], [])
  end.

(** An optional exponent part, to the end of the string. *)
Definition exponent_part (s : jsstring) : option Z :=
  match s with
  | [] => Some 0
  | c :: s' =>
      if bool_decide (c ∈ [101; 69]%N) then
        match s' with
        | 43%N :: ds => integer_literal 10 ds
        | 45%N :: ds => Z.opp <$> integer_literal 10 ds
        | _ => integer_literal 10 s'
        end
      else None
  end.

(** StrUnsignedDecimalLiteral: [Infinity], or digits with an optional
    fraction and exponent, at least one digit before or after the point. *)
Definition unsigned_decimal_literal (s : jsstring) : option number :=
  if bool_decide (s = js "Infinity") then Some (S754_infinity false)
  else
    let '(ip, r) := span_digits s in
    let '(fp, r) := match r with
                    | 46%N :: r' => span_digits r'
                    | _ => ([], r)
                    end in
    if truthy (ip ++ fp) then
      ex ← exponent_part r;
      mant ← digits_value 10 0 (ip ++ fp);
      Some (Number.of_decimal mant (ex - Z.of_nat (length fp)))
    else None.

(** StrNumericLiteral: a signed decimal literal, or an unsigned binary,
    octal or hexadecimal integer. *)
Definition numeric_literal (s : jsstring) : option number :=
  match s with
  | 43%N :: s' => unsigned_decimal_literal s'
  | 45%N :: s' => Number.opp <$> unsigned_decimal_literal s'
  | 48%N :: c :: s' =>
      if bool_decide (c ∈ [120; 88]%N) then Number.of_Z <$> integer_literal 16 s'
      else if bool_decide (c ∈ [111; 79]%N) then Number.of_Z <$> integer_literal 8 s'
      else if bool_decide (c ∈ [98; 66]%N) then Number.of_Z <$> integer_literal 2 s'
      else unsigned_decimal_literal s
  | _ => unsigned_decimal_literal s
  end.

(** StringToNumber: white space around the literal is ignored, the empty
    string is [0], and a string that is no literal is [NaN]. *)
Definition StringToNumber (s : jsstring) : number :=
  let t := trim s in
  if truthy t then default Number.nan (numeric_literal t) else S754_zero false.

(** ToString.  An object has no primitive value when it has a member
    [toString] (which hides the inherited method and is not callable);
    an array is the join of its elements. *)
Fixpoint ToString (v : value) : completion jsstring :=
  match v with
  | VUndefined => Normal (js "undefined")
  | VNull => Normal (js "null")
  | VBool b => Normal (if b then js "true" else js "false")
  | VNum x => Normal (Number.toString x)
  | VStr s => Normal s
  | VArr elems =>
      (fix join (l : list value) : completion jsstring :=
         match l with
         | [] => Normal []
         | a :: l' =>
             s ← match a with
                 | VUndefined | VNull => Normal []
                 | _ => ToString a
                 end;
             match l' with
             | [] => Normal s
             | _ :: _ => r ← join l'; Normal (s ++ js "," ++ r)
             end
         end) elems
  | VObj props =>
      match props !! js "toString" with
      | Some _ => Throw TypeError
      | None => Normal (js "[object Object]")
      end
  end.

(** ToNumber *)
Definition ToNumber (v : value) : completion number :=
  match v with
  | VUndefined => Normal Number.nan
  | VNull => Normal (S754_zero false)
  | VBool b => Normal (if b then Number.of_Z 1 else S754_zero false)
  | VNum x => Normal x
  | VStr s => Normal (StringToNumber s)
  | VArr _ | VObj _ => StringToNumber <$> ToString v
  end.

(** ** [format]

<<
function format(val, precision) {
    // Format as a string, rounded and 0-padded
    let result = Math.round(val * 10**precision) / 10**precision

    // Fill to the specified precision
    const dec = result.toString().split('.')[1]
    const len = dec && dec.length > precision ? dec.length : precision
    return Number(result).toFixed(len)
}
>>
    [precision] is a non-negative integer (the callers pass 1 and 0). *)

Definition format (val : value) (precision : nat) : completion jsstring :=
  x ← ToNumber val;
  let result :=
    Number.div (Number.round (Number.mul x (Number.pow10 precision)))
               (Number.pow10 precision) in
  let dec := split 46%N (Number.toString result) !! 1%nat in
  let len :=
    match dec with
    | Some d =>
        if truthy d && (precision <? length d)%nat then length d
        else precision
    | None => precision
    end in
  Number.toFixed result len.

(** ** [decodeURIComponent] *)

(** The octet written by two hexadecimal digits. *)
Definition hex_octet (h l : jschar) : option N :=
  hi ← digit_value 16 h; lo ← digit_value 16 l; Some (Z.to_N (16 * hi + lo)).

(** The number of octets of the UTF-8 sequence that the octet [b] starts:
    the number of its leading 1 bits, which has to be 0, 2, 3 or 4. *)
Definition utf8_length (b : N) : option nat :=
  if (b <? 128)%N then Some 1%nat
  else if (b <? 192)%N then None
  else if (b <? 224)%N then Some 2%nat
  else if (b <? 240)%N then Some 3%nat
  else if (b <? 248)%N then Some 4%nat
  else None.

(** The code point with the UTF-8 encoding [octets]: the continuation
    octets are 10xxxxxx, the encoding is the shortest one, and the code
    point is no surrogate and at most U+10FFFF. *)
Definition utf8_code_point (octets : list N) : option N :=
  match octets with
  | b :: conts =>
      if forallb (fun c => (128 <=? c) && (c <? 192))%N conts then
        let lead := match length conts with
                    | 1%nat => (b - 192)%N
                    | 2%nat => (b - 224)%N
                    | _ => (b - 240)%N
                    end in
        let v := fold_left (fun a c => a * 64 + (c - 128))%N conts lead in
        let least := match length conts with
                     | 1%nat => 128%N
                     | 2%nat => 2048%N
                     | _ => 65536%N
                     end in
        if ((least <=? v) && (v <=? 1114111)
            && negb ((55296 <=? v) && (v <=? 57343)))%N
        then Some v else None
      else None
  | [] => None
  end.

(** The UTF-16 code units of a code point. *)
Definition utf16 (v : N) : jsstring :=
  if (v <? 65536)%N then [v]
  else [55296 + (v - 65536) / 1024; 56320 + (v - 65536) mod 1024]%N.

(** The decoding loop.  [pending] holds the octets read so far of an
    unfinished UTF-8 sequence and the number of octets still to come, each
    of which has to be a further escape.  Every malformed input is a
    URIError. *)
Fixpoint decode (pending : option (list N * nat)) (s : jsstring)
  : completion jsstring :=
  match s with
  | [] => match pending with None => Normal [] | Some _ => Throw URIError end
  | c :: rest =>
      if (c =? 37)%N then
        match rest with
        | h :: l :: rest' =>
            match hex_octet h l, pending with
            | None, _ => Throw URIError
            | Some b, None =>
                match utf8_length b with
                | None => Throw URIError
                | Some 1%nat => r ← decode None rest'; Normal (b :: r)
                | Some n => decode (Some ([b], Nat.pred n)) rest'
                end
            | Some b, Some (octets, 1%nat) =>
                match utf8_code_point (octets ++ [b]) with
                | None => Throw URIError
                | Some v => r ← decode None rest'; Normal (utf16 v ++ r)
                end
            | Some b, Some (octets, n) =>
                decode (Some (octets ++ [b], Nat.pred n)) rest'
            end
        | _ => Throw URIError
        end
      else
        match pending with
        | None => r ← decode None rest; Normal (c :: r)
        | Some _ => Throw URIError
        end
  end.

Definition decodeURIComponent (s : jsstring) : completion jsstring :=
  decode None s.

(** ** [getCookie]

<<
function getCookie() {
    let name_ = "csrftoken"
    let cookieValue = null;
    if (document.cookie && document.cookie !== '') {
        var cookies = document.cookie.split(';');
        for (var i = 0; i < cookies.length; i++) {
            var cookie = cookies[i].trim();
            // Does this cookie string begin with the name we want?
            if (cookie.substring(0, name_.length + 1) === (name_ + '=')) {
                cookieValue = decodeURIComponent(cookie.substring(name_.length + 1));
                break;
            }
        }
    }
    return cookieValue;
}
>>
    The function reads [document.cookie], here its argument
    [cookie_string]. *)

Definition name_ : jsstring := js "csrftoken".

(** The [for] loop over [cookies], from index [i] on; [cookieValue] is
    still [null] when an iteration starts. *)
Fixpoint getCookie_loop (cookies : list jsstring) : completion value :=
  match cookies with
  | [] => Normal VNull
  | c :: cookies' =>
      let cookie := trim c in
      if bool_decide (take (length name_ + 1) cookie = name_ ++ js "=")
      then VStr <$> decodeURIComponent (drop (length name_ + 1) cookie)
      else getCookie_loop cookies'
  end.

Definition getCookie (cookie_string : jsstring) : completion value :=
  if truthy cookie_string && bool_decide (cookie_string ≠ [])
  then getCookie_loop (split 59%N cookie_string)
  else Normal VNull.

(** ** The page

    What the script can observe or change: the text content of the
    elements that have an id, the properties of the global object (the
    global variables), the cookie string, and the requests handed to
    [fetch] so far. *)

Record request := Request {
  url : jsstring;
  method : jsstring;
  headers : list (jsstring * value);
  credentials : jsstring
}.

Record page := Page {
  dom : gmap jsstring jsstring;
  globals : gmap jsstring value;
  cookie : jsstring;
  requests : list request
}.

(** Code that reads and writes the page and may throw; the page at a throw
    is the page as the code left it. *)
Definition M (A : Type) : Type := page → completion A * page.

#[global] Instance M_ret : MRet M := λ A a st, (Normal a, st).
#[global] Instance M_bind : MBind M := λ A B f m st,
  match m st with
  | (Normal a, st') => f a st'
  | (Throw err, st') => (Throw err, st')
  end.

Definition lift {A} (c : completion A) : M A := λ st, (c, st).

(** [document.getElementById(id)]: the element, or [null] ([None]). *)
Definition getElementById (id : jsstring) : M (option jsstring) :=
  λ st, (Normal (if dom st !! id is Some _ then Some id else None), st).

(** The page [st] with [text] as the text content of the element [id]. *)
Definition with_text (id text : jsstring) (st : page) : page :=
  Page (<[id := text]> (dom st)) (globals st) (cookie st) (requests st).

(** The page [st] with [v] as the value of the global variable [name]. *)
Definition with_global (name : jsstring) (v : value) (st : page) : page :=
  Page (dom st) (<[name := v]> (globals st)) (cookie st) (requests st).

(** The page [st] with the cookie string [c], as after a change of the
    cookie store by the browser. *)
Definition with_cookie (c : jsstring) (st : page) : page :=
  Page (dom st) (globals st) c (requests st).

(** [el.textContent = text]: a TypeError when [el] is [null]. *)
Definition set_textContent (el : option jsstring) (text : jsstring) : M unit :=
  λ st,
    match el with
    | None => (Throw TypeError, st)
    | Some id => (Normal (), with_text id text st)
    end.

(** [name = v] for an identifier that no declaration binds: in a script
    (not in strict mode) it sets the property [name] of the global
    object. *)
Definition assign_global (name : jsstring) (v : value) : M unit :=
  λ st, (Normal (), with_global name v st).

(** [document.cookie] *)
Definition document_cookie : M jsstring := λ st, (Normal (cookie st), st).

(** [fetch(url, init)] hands the request over. *)
Definition fetch (req : request) : M unit :=
  λ st,
    (Normal (),
     Page (dom st) (globals st) (cookie st) (requests st ++ [req])).

(** ** [update_readings]

<<
function update_readings() {
    // Request readings, and update the display

    fetch("/api/readings", {
        method: "GET",
        headers: {
            "X-CSRFToken": getCookie(),
            "Content-Type": "application/json; charset=UTF-8",
            Accept: "application/json",
            "X-Requested-With": "XMLHttpRequest"
        },
        credentials: "include",
        // body: JSON.stringify(data)
    })
        .then(response => response.json())
        .then(r => {
            // todo: Select units

            // todo: Handle errors; both data connection, and sensor errors
            if (r.pH.hasOwnProperty('Ok')) {
                document.getElementById("ph-reading").textContent = format(r.pH.Ok, 1)
            }

            if (r.T.hasOwnProperty('Ok')) {
                document.getElementById("temp-reading").textContent = format(r.T.Ok, 1)
            }

            if (r.ec.hasOwnProperty('Ok')) {
                document.getElementById("ec-reading").textContent = format(r.ec.Ok * 1000000, 0)
            }

            if (r.ORP.hasOwnProperty('Ok')) {
                document.getElementById("orp-reading").textContent = format(disp = r.ORP.Ok, 0)
            }

        })
}
>> *)

(** One of the four blocks
    [if (r.K.hasOwnProperty('Ok')) { document.getElementById(ID).textContent = E }]
    where [render] evaluates [E] from the value of [r.K.Ok].  The element
    is looked up before [E] is evaluated, and the assignment throws when it
    is [null]. *)
Definition show_reading (r : value) (key id : jsstring)
    (render : value → M jsstring) : M unit :=
  f ← lift (get r key);
  ok ← lift (hasOwnProperty f (js "Ok"));
  if ok : bool then
    el ← getElementById id;
    f ← lift (get r key);
    v ← lift (get f (js "Ok"));
    text ← render v;
    set_textContent el text
  else mret ().

(** [format(r.pH.Ok, 1)] and [format(r.T.Ok, 1)] *)
Definition render_1 (v : value) : M jsstring := lift (format v 1).

(** [format(r.ec.Ok * 1000000, 0)] *)
Definition render_ec (v : value) : M jsstring :=
  x ← lift (ToNumber v);
  lift (format (VNum (Number.mul x (Number.of_Z 1000000))) 0).

(** [format(disp = r.ORP.Ok, 0)] *)
Definition render_ORP (v : value) : M jsstring :=
  assign_global (js "disp") v;;
  lift (format v 0).

(** The second [then] callback, [r => { ... }]. *)
Definition response_handler (r : value) : M unit :=
  show_reading r (js "pH") (js "ph-reading") render_1;;
  show_reading r (js "T") (js "temp-reading") render_1;;
  show_reading r (js "ec") (js "ec-reading") render_ec;;
  show_reading r (js "ORP") (js "orp-reading") render_ORP.

(** What comes back for a request: no response at all (the promise of
    [fetch] is rejected with a TypeError), or a response, whose body is
    a JSON text or not ([response.json()] is rejected with a SyntaxError
    when it is not). *)
Inductive reply :=
  | Unreachable
  | Response (body : option value).

(** How the promise at the end of the chain is settled.  Nothing handles a
    rejection. *)
Inductive settlement :=
  | Fulfilled
  | Rejected (err : error).

(** The two [then] callbacks on the reply. *)
Definition on_reply (rep : reply) : M settlement :=
  match rep with
  | Unreachable => mret (Rejected TypeError)
  | Response None => mret (Rejected SyntaxError)
  | Response (Some r) =>
      λ st,
        match response_handler r st with
        | (Normal _, st') => (Normal Fulfilled, st')
        | (Throw err, st') => (Normal (Rejected err), st')
        end
  end.

(** The request that [update_readings] builds around the token. *)
Definition readings_request (token : value) : request :=
  {| url := js "/api/readings";
     method := js "GET";
     headers := [ (js "X-CSRFToken", token);
                  (js "Content-Type", VStr (js "application/json; charset=UTF-8"));
                  (js "Accept", VStr (js "application/json"));
                  (js "X-Requested-With", VStr (js "XMLHttpRequest")) ];
     credentials := js "include" |}.

(** One invocation, with [server] telling what comes back for the request;
    the callbacks run when it does. *)
Definition update_readings (server : request → reply) : M settlement :=
  c ← document_cookie;
  token ← lift (getCookie c);
  let req := readings_request token in
  fetch req;;
  on_reply (server req).

(** ** The specification's notions *)

(** *** The formatter (spec section 4.1) *)

(** [round(v * 10^p) / 10^p], the value [format] calls [result]. *)
Definition rounded (v : number) (p : nat) : number :=
  Number.div (Number.round (Number.mul v (Number.pow10 p))) (Number.pow10 p).

(** The number of fractional digits of the natural decimal representation
    of [x], the shortest decimal [s * 10^(n-k)] that denotes it: the
    [k - n] digits of [s] that stand after the point. *)
Definition fraction_digits (x : number) : nat :=
  match x with
  | S754_finite _ m e =>
      let '(k, _, n) := Number.shortest m e in Z.to_nat (Z.of_nat k - n)
  | _ => 0%nat
  end.

(** The fixed-point rendering of a finite [x] with [f] fractional digits:
    a minus sign for a negative [x], and the digits of the integer nearest
    to [|x| * 10^f] with the point before the last [f]. *)
Definition fixed_point (x : number) (f : nat) : jsstring :=
  match x with
  | S754_finite s m e =>
      (if s then js "-" else [])
        ++ Number.fixed_digits
             ((2 * (Number.numer m e * 10 ^ Z.of_nat f) + Number.denom e)
                / (2 * Number.denom e)) f
  | _ => Number.fixed_digits 0 f
  end.

(** The formatter as the specification describes it. *)
Definition format_spec (v : number) (p : nat) : jsstring :=
  let r := rounded v p in
  fixed_point r (Nat.max p (fraction_digits r)).

(** [x] is zero, or finite with [10^-6 <= |x| < 10^21]: the Numbers that
    [toString] writes without an exponent ([-6 < n <= 21]) and [toFixed]
    in fixed-point notation. *)
Definition plain (x : number) : bool :=
  match x with
  | S754_zero _ => true
  | S754_finite _ m e =>
      let '(_, _, n) := Number.shortest m e in
      (-6 <? n) && (n <=? 21) && negb (Number.ge_1e21 m e)
  | _ => false
  end.

(** [x] is finite and not zero, with [|x| < 10^-6]: the Numbers below
    [10^21] that [toString] writes with a negative exponent ([n <= -6]). *)
Definition tiny (x : number) : bool :=
  match x with
  | S754_finite _ m e =>
      let '(_, _, n) := Number.shortest m e in
      (n <=? -6) && negb (Number.ge_1e21 m e)
  | _ => false
  end.

(** *** The cookie reader (spec section 4.3) *)

(** A piece [name=value], cut at its first [=]. *)
Fixpoint name_value (piece : jsstring) : option (jsstring * jsstring) :=
  match piece with
  | [] => None
  | c :: piece' =>
      if (c =? 61)%N then Some ([], piece')
      else '(n, v) ← name_value piece'; Some (c :: n, v)
  end.

(** The pairs of a cookie string: its pieces between semicolons, trimmed,
    that are of the form [name=value]. *)
Definition cookie_pairs (c : jsstring) : list (jsstring * jsstring) :=
  omap name_value (trim <$> split 59%N c).

(** The value of the first pair named [name]. *)
Definition first_named (name : jsstring) (pairs : list (jsstring * jsstring))
  : option jsstring :=
  snd <$> List.find (λ p, bool_decide (p.1 = name)) pairs.

(** The cookie reader as the specification describes it: the decoded value
    of the first pair named [csrftoken], [null] without one. *)
Definition getCookie_spec (c : jsstring) : completion value :=
  match first_named (js "csrftoken") (cookie_pairs c) with
  | Some v => VStr <$> decodeURIComponent v
  | None => Normal VNull
  end.

(** *** The reading response (spec section 3) *)

(** [r] has the top-level field [key], with value [f]. *)
Definition has_field (r : value) (key : jsstring) (f : value) : Prop :=
  own_property r key = Some f.

(** A field whose tag can be inspected: [f.hasOwnProperty('Ok')] returns
    when [f] is neither [null] nor [undefined] and has no member
    [hasOwnProperty] of its own hiding the inherited method.  These are the
    records of the data model, and every number, string, boolean and
    array. *)
Definition inspectable (f : value) : Prop :=
  f ≠ VUndefined ∧ f ≠ VNull
  ∧ own_property f (js "hasOwnProperty") = None.

(** The success variant: the tag [Ok] with the numeric payload [x]. *)
Definition success (f : value) (x : number) : Prop :=
  inspectable f ∧ own_property f (js "Ok") = Some (VNum x).

(** A failure variant, of whatever shape: no tag [Ok]. *)
Definition failure (f : value) : Prop :=
  inspectable f ∧ own_property f (js "Ok") = None.

(** A reading: a field of one of the two variants. *)
Definition reading (f : value) : Prop := failure f ∨ ∃ x, success f x.

(** The texts [d] of the page after the block for the reading [f], whose
    text is shown in the element [id]: the text of a success replaces the
    text of [id], a failure changes nothing. *)
Definition shown (f : value) (id : jsstring)
    (text : number → completion jsstring) (d : gmap jsstring jsstring)
  : gmap jsstring jsstring :=
  match own_property f (js "Ok") with
  | Some (VNum x) =>
      match text x with Normal t => <[id := t]> d | Throw _ => d end
  | _ => d
  end.

(** The texts of the four readings. *)
Definition text_pH (x : number) : completion jsstring := format (VNum x) 1.
Definition text_T (x : number) : completion jsstring := format (VNum x) 1.
Definition text_ec (x : number) : completion jsstring :=
  format (VNum (Number.mul x (Number.of_Z 1000000))) 0.
Definition text_ORP (x : number) : completion jsstring := format (VNum x) 0.


(** The four display targets exist in the page. *)
Definition displays (st : page) : Prop :=
  ∀ id, id ∈ [js "ph-reading"; js "temp-reading"; js "ec-reading";
              js "orp-reading"] → is_Some (dom st !! id).

(** *** Constants of the examples *)

(** The record [{"Ok": x}]. *)
Definition Ok (x : number) : value := VObj {[ js "Ok" := VNum x ]}.

(** The response
    [{"pH": {"Ok": 7.01}, "T": {"Ok": 25.0}, "ec": {"Ok": 0.0015},
      "ORP": {"Ok": 150.2}}] of the specification's example. *)
Definition example_response : value :=
  VObj (list_to_map
          [ (js "pH", Ok (Number.of_decimal 701 (-2)));
            (js "T", Ok (Number.of_decimal 250 (-1)));
            (js "ec", Ok (Number.of_decimal 15 (-4)));
            (js "ORP", Ok (Number.of_decimal 1502 (-1))) ]).

(** A page with the four display elements showing a dash, no global
    variable, the cookie string [c] and no request issued yet. *)
Definition example_page (c : jsstring) : page :=
  {| dom := list_to_map
              [ (js "ph-reading", js "-"); (js "temp-reading", js "-");
                (js "ec-reading", js "-"); (js "orp-reading", js "-") ];
     globals := ∅;
     cookie := c;
     requests := [] |}.

(** The record [{"Err": "probe"}], a reading without the success tag. *)
Definition Err : value := VObj {[ js "Err" := VStr (js "probe") ]}.

(** The example response with [pH] a failure:
    [{"pH": {"Err": "probe"}, "T": {"Ok": 25.0}, "ec": {"Ok": 0.0015},
      "ORP": {"Ok": 150.2}}]. *)
Definition response_pH_failed : value :=
  VObj (list_to_map
          [ (js "pH", Err);
            (js "T", Ok (Number.of_decimal 250 (-1)));
            (js "ec", Ok (Number.of_decimal 15 (-4)));
            (js "ORP", Ok (Number.of_decimal 1502 (-1))) ]).

(** The example response without its field [T]:
    [{"pH": {"Ok": 7.01}, "ec": {"Ok": 0.0015}, "ORP": {"Ok": 150.2}}]. *)
Definition response_without_T : value :=
  VObj (list_to_map
          [ (js "pH", Ok (Number.of_decimal 701 (-2)));
            (js "ec", Ok (Number.of_decimal 15 (-4)));
            (js "ORP", Ok (Number.of_decimal 1502 (-1))) ]).

(** The example response with a member [hasOwnProperty] in [pH]:
    [{"pH": {"Ok": 7.01, "hasOwnProperty": true}, "T": {"Ok": 25.0},
      "ec": {"Ok": 0.0015}, "ORP": {"Ok": 150.2}}]. *)
Definition response_hidden_method : value :=
  VObj (list_to_map
          [ (js "pH",
             VObj (list_to_map
                     [ (js "Ok", VNum (Number.of_decimal 701 (-2)));
                       (js "hasOwnProperty", VBool true) ]));
            (js "T", Ok (Number.of_decimal 250 (-1)));
            (js "ec", Ok (Number.of_decimal 15 (-4)));
            (js "ORP", Ok (Number.of_decimal 1502 (-1))) ]).

(** The example response with [pH] null:
    [{"pH": null, "T": {"Ok": 25.0}, "ec": {"Ok": 0.0015},
      "ORP": {"Ok": 150.2}}]. *)
Definition response_null_pH : value :=
  VObj (list_to_map
          [ (js "pH", VNull);
            (js "T", Ok (Number.of_decimal 250 (-1)));
            (js "ec", Ok (Number.of_decimal 15 (-4)));
            (js "ORP", Ok (Number.of_decimal 1502 (-1))) ]).

(** A page without elements. *)
Definition empty_page : page :=
  {| dom := ∅; globals := ∅; cookie := []; requests := [] |}.

(** A server that answers every request with the response [r]. *)
Definition answering (r : value) : request → reply := λ _, Response (Some r).

(** *** Notions used in the proofs *)

(** [render] evaluates to the text [text x] on a numeric payload [x], and
    leaves the texts of the page alone. *)
Definition renders (render : value → M jsstring)
    (text : number → completion jsstring) : Prop :=
  ∀ x st, ∃ t st', text x = Normal t
                   ∧ render (VNum x) st = (Normal t, st') ∧ dom st' = dom st.

(** [m] neither issues a request nor touches the cookie string. *)
Definition quiet {A} (m : M A) : Prop :=
  ∀ st, requests (m st).2 = requests st ∧ cookie (m st).2 = cookie st.

(** The finite Number [x] is exactly [k + 1/2], half-way between the
    integers [k] and [k + 1]. *)
Definition half_way (x : number) (k : Z) : Prop :=
  match x with
  | S754_finite s m e =>
      e < 0 ∧ 2 * (if s then Z.neg m else Z.pos m) = (2 * k + 1) * 2 ^ (- e)
  | _ => False
  end.

(** ** Notions of the further properties *)

(** *** The formatter *)

(** [x] is zero, or finite with a magnitude below [10^21]: the Numbers
    that [toFixed] writes in fixed-point notation. *)
Definition fixed_range (x : number) : bool :=
  match x with
  | S754_zero _ => true
  | S754_finite _ m e => negb (Number.ge_1e21 m e)
  | _ => false
  end.

(** [x] is below zero. *)
Definition negative (x : number) : bool :=
  match x with
  | S754_finite true _ _ | S754_infinity true => true
  | _ => false
  end.

(** The integer nearest to [|x| * 10^f], the larger one at a tie. *)
Definition scaled (x : number) (f : nat) : Z :=
  match x with
  | S754_finite _ m e =>
      (2 * (Number.numer m e * 10 ^ Z.of_nat f) + Number.denom e)
        / (2 * Number.denom e)
  | _ => 0
  end.

(** A decimal digit. *)
Definition is_digit (c : jschar) : bool := ((48 <=? c) && (c <=? 57))%N.

(** The number of fractional digits [format] asks [toFixed] for, the
    value it calls [len], from the value [r] it calls [result]. *)
Definition format_len (r : number) (p : nat) : nat :=
  match split 46%N (Number.toString r) !! 1%nat with
  | Some d => if truthy d && (p <? length d)%nat then length d else p
  | None => p
  end.

(** A positive finite Number. *)
Definition positive_finite (x : number) : bool :=
  match x with S754_finite false _ _ => true | _ => false end.

(** *** Strings *)

(** [pieces.join(sep)] for a separator of one code unit. *)
Fixpoint join (sep : jschar) (pieces : list jsstring) : jsstring :=
  match pieces with
  | [] => []
  | [piece] => piece
  | piece :: pieces' => piece ++ sep :: join sep pieces'
  end.

(** The number of occurrences of [c] in [s]. *)
Definition occurrences (c : jschar) (s : jsstring) : nat :=
  length (filter (λ d, d = c) s).

(** *** Percent-encoding, which [decodeURIComponent] undoes *)

(** The hexadecimal digit [d] (0 to 15), in upper case. *)
Definition hex_digit (d : N) : jschar :=
  if (d <? 10)%N then (48 + d)%N else (55 + d)%N.

(** The escape sequence [%XX] of the octet [b]. *)
Definition escape (b : N) : jsstring :=
  [37%N; hex_digit (b / 16); hex_digit (b mod 16)].

(** The UTF-8 encoding of the code point [v]. *)
Definition utf8 (v : N) : list N :=
  if (v <? 128)%N then [v]
  else if (v <? 2048)%N then [192 + v / 64; 128 + v mod 64]%N
  else if (v <? 65536)%N then
    [224 + v / 4096; 128 + (v / 64) mod 64; 128 + v mod 64]%N
  else [240 + v / 262144; 128 + (v / 4096) mod 64; 128 + (v / 64) mod 64;
        128 + v mod 64]%N.

(** The characters that [encodeURIComponent] leaves as they are: letters,
    digits and [- _ . ! ~ * ' ( )]. *)
Definition unreserved (c : N) : bool :=
  ((65 <=? c) && (c <=? 90) || (97 <=? c) && (c <=? 122)
   || (48 <=? c) && (c <=? 57))%N
  || bool_decide (c ∈ [45; 95; 46; 33; 126; 42; 39; 40; 41]%N).

(** A code point of a well-formed string: at most U+10FFFF and no
    surrogate. *)
Definition scalar (v : N) : bool :=
  ((v <=? 1114111) && negb ((55296 <=? v) && (v <=? 57343)))%N.

(** [encodeURIComponent] of the string with the code points [vs]: every
    character that is not left as it is becomes the escape sequences of
    the octets of its UTF-8 encoding. *)
Definition percent_encode (vs : list N) : jsstring :=
  flat_map (λ v, if unreserved v then [v] else flat_map escape (utf8 v)) vs.

(** *** The cookie string of a cookie jar *)

(** The text [name=value] of a cookie. *)
Definition pair_text (p : jsstring * jsstring) : jsstring :=
  p.1 ++ 61%N :: p.2.

(** [document.cookie] for the cookies [jar]: their texts, separated by a
    semicolon and a space. *)
Fixpoint cookie_string (jar : list (jsstring * jsstring)) : jsstring :=
  match jar with
  | [] => []
  | [p] => pair_text p
  | p :: jar' => pair_text p ++ js "; " ++ cookie_string jar'
  end.

(** A code unit of a cookie name or value: no semicolon and no white
    space. *)
Definition cookie_octet (c : jschar) : bool :=
  negb (c =? 59)%N && negb (is_space c).

(** A cookie whose name and value are made of such code units, the name
    without [=]. *)
Definition well_formed (p : jsstring * jsstring) : bool :=
  forallb (λ c, cookie_octet c && negb (c =? 61)%N) p.1
  && forallb cookie_octet p.2.

(** *** The blocks of the response handler *)

(** The payload of the field [key] of [r] when the field carries the tag
    [Ok], as the test [r.key.hasOwnProperty('Ok')] and the read [r.key.Ok]
    find it; [None] without the tag. *)
Definition tagged (r : value) (key : jsstring) : completion (option value) :=
  f ← get r key;
  ok ← hasOwnProperty f (js "Ok");
  if ok : bool then v ← get f (js "Ok"); Normal (Some v) else Normal None.

(** [render] evaluates to [text v] on the payload [v] and, when
    [sets_disp], stores [v] in the global variable [disp]; it does nothing
    else. *)
Definition render_as (render : value → M jsstring)
    (text : value → completion jsstring) (sets_disp : bool) : Prop :=
  ∀ v st, render v st
          = (text v, if sets_disp then with_global (js "disp") v st else st).

(** What the three right-hand sides evaluate to on a payload. *)
Definition payload_text_1 (v : value) : completion jsstring := format v 1.
Definition payload_text_ec (v : value) : completion jsstring :=
  x ← ToNumber v; format (VNum (Number.mul x (Number.of_Z 1000000))) 0.
Definition payload_text_0 (v : value) : completion jsstring := format v 0.

(** The outcome of a block whose field carries the payload [v]: the right
    side is evaluated, then the text is stored if the element [id] was
    there when the block began. *)
Definition block_run (id : jsstring) (text : value → completion jsstring)
    (sets_disp : bool) (v : value) (st : page) : completion unit * page :=
  let st1 := if sets_disp then with_global (js "disp") v st else st in
  match text v with
  | Throw err => (Throw err, st1)
  | Normal t =>
      if dom st !! id is Some _ then (Normal (), with_text id t st1)
      else (Throw TypeError, st1)
  end.

(** The four display targets. *)
Definition display_ids : list jsstring :=
  [js "ph-reading"; js "temp-reading"; js "ec-reading"; js "orp-reading"].

(** Running [m] again on the page it left gives the same completion and
    changes nothing more. *)
Definition idempotent (m : M unit) : Prop :=
  ∀ st, m (m st).2 = m st.

(** A page on which [b] returns without changing anything is still one
    after [m]. *)
Definition keeps (b m : M unit) : Prop :=
  ∀ st, b st = (Normal (), st) → b (m st).2 = (Normal (), (m st).2).

(** What a block for the element [id] may change from [st] to [st']: the
    text of [id], if the element exists, and the global variable [disp]. *)
Definition block_frame (id : jsstring) (st st' : page) : Prop :=
  cookie st' = cookie st ∧ requests st' = requests st
  ∧ (∀ name, name ≠ js "disp" → globals st' !! name = globals st !! name)
  ∧ (∀ j, dom st' !! j ≠ dom st !! j →
          j = id ∧ is_Some (dom st !! j) ∧ is_Some (dom st' !! j)).

(** What the handler may change: the texts of display targets that exist,
    and the global variable [disp]. *)
Definition handler_frame (st st' : page) : Prop :=
  cookie st' = cookie st ∧ requests st' = requests st
  ∧ (∀ name, name ≠ js "disp" → globals st' !! name = globals st !! name)
  ∧ (∀ j, dom st' !! j ≠ dom st !! j →
          j ∈ display_ids ∧ is_Some (dom st !! j) ∧ is_Some (dom st' !! j)).

(** The join of the elements of an array, as [ToString] computes it. *)
Definition join_elements (elems : list value) : completion jsstring :=
  ToString (VArr elems).

(** The page [st] with [req] added to the requests made, as [fetch]
    leaves it. *)
Definition with_request (req : request) (st : page) : page :=
  Page (dom st) (globals st) (cookie st) (requests st ++ [req]).

(** [m] does not look at the requests made: with one more of them it
    does the same. *)
Definition blind (m : M unit) : Prop :=
  ∀ req st, m (with_request req st) = ((m st).1, with_request req (m st).2).

(** What the handler owes the element [id] of the field [key] when it
    returns: the field is there; with the tag [Ok], the element shows the
    text of the payload; without it, what it showed before. *)
Definition shows (r : value) (key id : jsstring)
    (text : value → completion jsstring) (st st' : page) : Prop :=
  ∃ f, own_property r key = Some f
       ∧ match own_property f (js "Ok") with
         | Some v => ∃ t, text v = Normal t ∧ dom st' !! id = Some t
         | None => dom st' !! id = dom st !! id
         end.

(** A field that is a number, a string, a boolean or an array instead of
    a record. *)
Definition bare (f : value) : bool :=
  match f with
  | VBool _ | VNum _ | VStr _ | VArr _ => true
  | _ => false
  end.

(** The response [{"pH": 7.01, "T": "25.0", "ec": [0.0015], "ORP": true}],
    its readings not wrapped in records. *)
Definition response_bare : value :=
  VObj (list_to_map
          [ (js "pH", VNum (Number.of_decimal 701 (-2)));
            (js "T", VStr (js "25.0"));
            (js "ec", VArr [VNum (Number.of_decimal 15 (-4))]);
            (js "ORP", VBool true) ]).

(** The response [{"pH": {"Err": "probe"}, "T": {"Err": "probe"},
    "ec": {"Err": "probe"}, "ORP": {"Err": "probe"}}]. *)
Definition response_all_failed : value :=
  VObj (list_to_map
          [ (js "pH", Err); (js "T", Err); (js "ec", Err); (js "ORP", Err) ]).

(** The response [{"pH": {"Ok": "7.01"}}]: the payload a string, the
    other fields absent. *)
Definition response_text_pH : value :=
  VObj {[ js "pH" := VObj {[ js "Ok" := VStr (js "7.01") ]} ]}.

(** * Properties *)

(** Two different string literals. *)
Ltac distinct := let H := fresh in intros H; vm_compute in H; discriminate H.

(** ** Strings and digits *)

Lemma split_no_sep sep s : sep ∉ s → split sep s = [s].
Proof.
  induction s as [|c s IH]; intros Hs; simpl; [done|].
  apply not_elem_of_cons in Hs as [Hc Hs].
  destruct (N.eqb_spec c sep) as [->|_]; [done|]. by rewrite IH.
Qed.

Lemma split_app_sep sep a b :
  sep ∉ a → split sep (a ++ sep :: b) = a :: split sep b.
Proof.
  induction a as [|c a IH]; intros Ha; simpl.
  - by rewrite N.eqb_refl.
  - apply not_elem_of_cons in Ha as [Hc Ha].
    destruct (N.eqb_spec c sep) as [->|_]; [done|]. by rewrite IH.
Qed.

Lemma split_piece_length sep s piece :
  piece ∈ split sep s → (length piece ≤ length s)%nat.
Proof.
  revert piece. induction s as [|c s IH]; intros piece; simpl.
  - intros ->%list_elem_of_singleton. done.
  - destruct (c =? sep)%N.
    + intros [->|H]%elem_of_cons; simpl; [lia|]. apply IH in H. lia.
    + destruct (split sep s) as [|q qs] eqn:E.
      * intros ->%list_elem_of_singleton. simpl. lia.
      * intros [->|H]%elem_of_cons; simpl.
        -- assert (length q ≤ length s)%nat by (apply IH; left). lia.
        -- assert (length piece ≤ length s)%nat by (apply IH; by right). lia.
Qed.

Lemma digits_length k s : length (digits k s) = k.
Proof.
  revert s. induction k as [|k IH]; intros s; simpl; [done|].
  rewrite length_app, IH. simpl. lia.
Qed.

Lemma digit_range s : (48 ≤ digit (s mod 10) ≤ 57)%N.
Proof.
  unfold digit. pose proof (Z.mod_pos_bound s 10). lia.
Qed.

Lemma digits_range k s c : c ∈ digits k s → (48 ≤ c ≤ 57)%N.
Proof.
  revert s. induction k as [|k IH]; intros s; simpl.
  - by intros ?%elem_of_nil.
  - intros [H| ->%list_elem_of_singleton]%elem_of_app; [by eapply IH|].
    apply digit_range.
Qed.

Lemma ndigits_from_bounds fuel k n :
  (k ≤ ndigits_from fuel k n ≤ k + fuel)%nat.
Proof.
  revert k. induction fuel as [|fuel IH]; intros k; simpl; [lia|].
  destruct (n <? 10 ^ Z.of_nat k); [lia|]. specialize (IH (S k)). lia.
Qed.

Lemma decimal_length n :
  (1 ≤ length (decimal n) ≤ 1 + Z.to_nat (Z.log2 n))%nat.
Proof.
  unfold decimal, ndigits. rewrite digits_length.
  pose proof (ndigits_from_bounds (Z.to_nat (Z.log2 n)) 1 n). lia.
Qed.

Lemma decade_up_bounds fuel num den N :
  N ≤ Number.decade_up fuel num den N ≤ N + Z.of_nat fuel.
Proof.
  revert den N. induction fuel as [|fuel IH]; intros den N; simpl; [lia|].
  destruct (num <? den); [lia|]. specialize (IH (10 * den) (N + 1)). lia.
Qed.

Lemma decade_down_bounds fuel num den N :
  N - Z.of_nat fuel ≤ Number.decade_down fuel num den N ≤ N.
Proof.
  revert num N. induction fuel as [|fuel IH]; intros num N; simpl; [lia|].
  destruct (10 * num <? den); [|lia]. specialize (IH (10 * num) (N - 1)). lia.
Qed.

Lemma decade_bounds num den : -400 ≤ Number.decade num den ≤ 400.
Proof.
  unfold Number.decade. destruct (num <? den).
  - pose proof (decade_down_bounds 400 num den 0). lia.
  - pose proof (decade_up_bounds 400 num den 0). lia.
Qed.

(** A candidate read back as a literal is the Number that is printed. *)
Lemma candidate_denotes m e k t :
  Number.candidate m e k = Some t →
  Number.of_decimal t
    (Number.decade (Number.numer m e) (Number.denom e) - Z.of_nat k)
  = S754_finite false m e.
Proof.
  unfold Number.candidate, Number.denotes, Number.nearest.
  repeat case_bool_decide; intros [= <-]; repeat case_match; done.
Qed.

Lemma triple_bounds m e k t k' s n :
  Number.triple m e k t = (k', s, n) →
  k' = k ∧ -400 ≤ n ≤ 401.
Proof.
  unfold Number.triple.
  pose proof (decade_bounds (Number.numer m e) (Number.denom e)).
  destruct (t =? _); intros [= <- <- <-]; lia.
Qed.

Lemma shortest_from_bounds m e fuel k k' s n :
  Number.shortest_from m e fuel k = (k', s, n) →
  (k ≤ k' ≤ k + fuel)%nat ∧ -400 ≤ n ≤ 401.
Proof.
  revert k. induction fuel as [|fuel IH]; intros k; simpl.
  - destruct (Number.candidate m e k);
      intros [-> ?]%triple_bounds; split; (lia || done).
  - destruct (Number.candidate m e k).
    + intros [-> ?]%triple_bounds; split; (lia || done).
    + intros [? ?]%IH. split; (lia || done).
Qed.

Lemma shortest_bounds m e k s n :
  Number.shortest m e = (k, s, n) → (1 ≤ k ≤ 17)%nat ∧ -400 ≤ n ≤ 401.
Proof. intros H%shortest_from_bounds. lia. Qed.

Lemma exponent_length n :
  -400 ≤ n ≤ 401 → (length (decimal (Z.abs (n - 1))) ≤ 9)%nat.
Proof.
  intros Hn. pose proof (decimal_length (Z.abs (n - 1))) as [_ H].
  assert (Z.log2 (Z.abs (n - 1)) ≤ Z.log2 401) by (apply Z.log2_le_mono; lia).
  change (Z.log2 401) with 8 in *. lia.
Qed.

Lemma toString_finite_length m e :
  (length (Number.toString_finite m e) ≤ 40)%nat.
Proof.
  unfold Number.toString_finite.
  destruct (Number.shortest m e) as [[k s] n] eqn:E.
  apply shortest_bounds in E as [Hk Hn].
  pose proof (exponent_length n Hn).
  repeat case_match; repeat (rewrite ?length_app, ?length_take, ?length_drop,
    ?length_replicate, ?digits_length; simpl); try lia.
  all: destruct k; simpl; lia.
Qed.

Lemma toString_length x : (length (Number.toString x) ≤ 41)%nat.
Proof.
  destruct x as [s|s| |s m e]; try (destruct s; simpl; lia); [simpl; lia|].
  unfold Number.toString. rewrite length_app.
  pose proof (toString_finite_length m e). destruct s; simpl; lia.
Qed.

Lemma lookup_split_length sep s i piece :
  split sep s !! i = Some piece → (length piece ≤ length s)%nat.
Proof.
  intros H. apply (split_piece_length sep). by eapply list_elem_of_lookup_2.
Qed.

Lemma toFixed_returns x f :
  (f ≤ 100)%nat → ∃ t, Number.toFixed x f = Normal t.
Proof.
  intros Hf. unfold Number.toFixed.
  destruct (Nat.ltb_spec 100 f); [lia|].
  destruct x; repeat case_match; eauto.
Qed.

(** [format] returns a string for every Number and every precision up to
    100. *)
Lemma format_returns x p :
  (p ≤ 100)%nat → ∃ t, format (VNum x) p = Normal t.
Proof.
  intros Hp. unfold format. simpl.
  apply toFixed_returns.
  destruct (split _ _ !! _) as [d|] eqn:E; [|done].
  apply lookup_split_length in E.
  pose proof (toString_length
    (Number.div (Number.round (Number.mul x (Number.pow10 p))) (Number.pow10 p))).
  case_match; lia.
Qed.

(** *** The decimal representation denotes its integer *)

Lemma digit_value_digit d :
  0 ≤ d < 10 → digit_value 10 (digit d) = Some d.
Proof.
  intros Hd. unfold digit_value, digit.
  replace (Z.of_N (48 + Z.to_N d)) with (48 + d) by lia.
  destruct (Z.leb_spec 48 (48 + d)); [|lia].
  destruct (Z.leb_spec (48 + d) 57); [|lia]. cbn [andb].
  replace (48 + d - 48) with d by lia.
  destruct (Z.ltb_spec d 10); [done|lia].
Qed.

Lemma digits_value_app radix acc s1 s2 :
  digits_value radix acc (s1 ++ s2)
  = digits_value radix acc s1 ≫= λ acc', digits_value radix acc' s2.
Proof.
  revert acc. induction s1 as [|c s1 IH]; intros acc; simpl; [done|].
  destruct (digit_value radix c) as [d|]; simpl; [apply IH|done].
Qed.

Lemma digits_value_digits k acc s :
  0 ≤ s →
  digits_value 10 acc (digits k s)
  = Some (acc * 10 ^ Z.of_nat k + s mod 10 ^ Z.of_nat k).
Proof.
  revert acc s. induction k as [|k IH]; intros acc s Hs.
  - simpl. rewrite Z.mod_1_r. f_equal. lia.
  - cbn [digits]. rewrite digits_value_app, IH by (apply Z.div_pos; lia).
    cbn [mbind option_bind digits_value].
    rewrite digit_value_digit by (apply Z.mod_pos_bound; lia).
    cbn [mbind option_bind]. f_equal.
    rewrite Nat2Z.inj_succ, Z.pow_succ_r by lia.
    assert (0 < 10 ^ Z.of_nat k) by (apply Z.pow_pos_nonneg; lia).
    rewrite Z.rem_mul_r by lia. ring.
Qed.

Lemma ndigits_from_above fuel k n :
  n < 10 ^ Z.of_nat (k + fuel) → n < 10 ^ Z.of_nat (ndigits_from fuel k n).
Proof.
  revert k. induction fuel as [|fuel IH]; intros k; simpl.
  - by rewrite Nat.add_0_r.
  - destruct (Z.ltb_spec n (10 ^ Z.of_nat k)); [done|].
    intros Hn. apply IH. by replace (S k + fuel)%nat with (k + S fuel)%nat by lia.
Qed.

Lemma ndigits_above n : 0 ≤ n → n < 10 ^ Z.of_nat (ndigits n).
Proof.
  intros Hn. apply ndigits_from_above.
  destruct (Z.eq_dec n 0) as [->|Hn0]; [done|].
  pose proof (Z.log2_spec n ltac:(lia)) as [_ Hlt].
  pose proof (Z.log2_nonneg n).
  replace (Z.of_nat (1 + Z.to_nat (Z.log2 n))) with (Z.succ (Z.log2 n)) by lia.
  eapply Z.lt_le_trans; [exact Hlt|].
  apply Z.pow_le_mono_l. lia.
Qed.

(** Reading the decimal representation of [n] back gives [n]. *)
Lemma decimal_denotes n : 0 ≤ n → digits_value 10 0 (decimal n) = Some n.
Proof.
  intros Hn. unfold decimal. rewrite digits_value_digits by done.
  rewrite Z.mod_small by (split; [done|by apply ndigits_above]). done.
Qed.

(** *** The decade *)

Lemma decade_up_spec fuel num den N :
  0 < den → num < den * 10 ^ Z.of_nat fuel →
  let N' := Number.decade_up fuel num den N in
  num < den * 10 ^ (N' - N) ∧ (N < N' → den * 10 ^ (N' - N - 1) ≤ num).
Proof.
  revert den N. induction fuel as [|fuel IH]; intros den N Hden Hnum; simpl.
  - rewrite Z.sub_diag. simpl in *. lia.
  - destruct (Z.ltb_spec num den) as [Hlt|Hge].
    + rewrite Z.sub_diag. simpl. lia.
    + rewrite Nat2Z.inj_succ, Z.pow_succ_r in Hnum by lia.
      destruct (IH (10 * den) (N + 1)) as [Hup Hlow]; [lia|lia|].
      pose proof (decade_up_bounds fuel num (10 * den) (N + 1)) as [HN _].
      set (N' := Number.decade_up fuel num (10 * den) (N + 1)) in *.
      replace (N' - N) with (Z.succ (N' - (N + 1))) by lia.
      rewrite Z.pow_succ_r by lia. split; [lia|]. intros _.
      destruct (Z.eq_dec N' (N + 1)) as [->|Hne].
      * replace (Z.succ (N + 1 - (N + 1)) - 1) with 0 by lia. simpl. lia.
      * specialize (Hlow ltac:(lia)).
        replace (Z.succ (N' - (N + 1)) - 1) with (Z.succ (N' - (N + 1) - 1)) by lia.
        rewrite Z.pow_succ_r by lia. lia.
Qed.

Lemma decade_down_spec fuel num den N :
  0 < num → den ≤ num * 10 ^ Z.of_nat fuel →
  let N' := Number.decade_down fuel num den N in
  (N' < N → num * 10 ^ (N - N') < den) ∧ den ≤ num * 10 ^ (N - N' + 1).
Proof.
  revert num N. induction fuel as [|fuel IH]; intros num N Hnum Hden; simpl.
  - rewrite Z.sub_diag. simpl in *. lia.
  - destruct (Z.ltb_spec (10 * num) den) as [Hlt|Hge].
    + rewrite Nat2Z.inj_succ, Z.pow_succ_r in Hden by lia.
      destruct (IH (10 * num) (N - 1)) as [Hup Hlow]; [lia|lia|].
      pose proof (decade_down_bounds fuel (10 * num) den (N - 1)) as [_ HN].
      set (N' := Number.decade_down fuel (10 * num) den (N - 1)) in *.
      split.
      * intros _. destruct (Z.eq_dec N' (N - 1)) as [->|Hne].
        -- replace (N - (N - 1)) with 1 by lia. lia.
        -- specialize (Hup ltac:(lia)).
           replace (N - N') with (Z.succ (N - 1 - N')) by lia.
           rewrite Z.pow_succ_r by lia. lia.
      * replace (N - N' + 1) with (Z.succ (N - 1 - N' + 1)) by lia.
        rewrite Z.pow_succ_r by lia. lia.
    + rewrite Z.sub_diag. simpl. lia.
Qed.

(** The decade [N] of [x = num / den] is the one with
    [10^(N-1) <= x < 10^N], for every [x] between [10^-400] and
    [10^400]. *)
Lemma decade_spec num den :
  0 < num → 0 < den →
  num < den * 10 ^ 400 → den ≤ num * 10 ^ 400 →
  let N := Number.decade num den in
  num * 10 ^ Z.max (- N) 0 < den * 10 ^ Z.max N 0
  ∧ den * 10 ^ Z.max (N - 1) 0 ≤ num * 10 ^ Z.max (1 - N) 0.
Proof.
  intros Hnum Hden Hup Hlow. unfold Number.decade.
  destruct (Z.ltb_spec num den) as [Hlt|Hge]; cbv zeta.
  - pose proof (decade_down_bounds 400 num den 0) as [_ HN].
    destruct (decade_down_spec 400 num den 0 Hnum Hlow) as [H1 H2].
    set (N := Number.decade_down 400 num den 0) in *.
    rewrite (Z.max_l (- N)), (Z.max_l (1 - N)), (Z.max_r (N - 1)),
      (Z.max_r N) by lia.
    replace (0 - N + 1) with (1 - N) in H2 by lia.
    change (10 ^ 0) with 1. rewrite !Z.mul_1_r. split; [|lia].
    destruct (Z.eq_dec N 0) as [->|Hne]; [simpl; lia|].
    specialize (H1 ltac:(lia)). by replace (0 - N) with (- N) in H1 by lia.
  - pose proof (decade_up_bounds 400 num den 0) as [HN _].
    destruct (decade_up_spec 400 num den 0 Hden Hup) as [H1 H2].
    set (N := Number.decade_up 400 num den 0) in *.
    assert (0 < N) as HN0.
    { destruct (Z.eq_dec N 0) as [E|]; [|lia].
      rewrite E in H1. simpl in H1. lia. }
    specialize (H2 HN0).
    rewrite (Z.max_r (- N)), (Z.max_r (1 - N)), (Z.max_l (N - 1)),
      (Z.max_l N) by lia.
    replace (N - 0) with N in * by lia.
    replace (N - 0 - 1) with (N - 1) in * by lia.
    change (10 ^ 0) with 1. rewrite !Z.mul_1_r. lia.
Qed.

(** ** The formatter on plain decimals *)

Lemma digits_no_point k s : 46%N ∉ digits k s.
Proof. intros H%digits_range. lia. Qed.

Lemma sign_no_point (s : bool) : 46%N ∉ (if s then js "-" else []).
Proof.
  destruct s; [by intros [=]%list_elem_of_singleton|by intros ?%elem_of_nil].
Qed.

Lemma zeros_no_point n : 46%N ∉ replicate n 48%N.
Proof. by intros [? _]%elem_of_replicate. Qed.

(** The part of the string of a Number that stands after the point, when
    the string has no exponent: the [k - n] fractional digits of the
    natural decimal representation, or nothing if there is none. *)
Lemma fraction_of_toString s m e k s0 n :
  Number.shortest m e = (k, s0, n) → -6 < n ≤ 21 →
  match split 46%N (Number.toString (S754_finite s m e)) !! 1%nat with
  | Some d => length d = Z.to_nat (Z.of_nat k - n) ∧ (0 < length d)%nat
  | None => Z.to_nat (Z.of_nat k - n) = 0%nat
  end.
Proof.
  intros E Hn. pose proof (shortest_bounds _ _ _ _ _ E) as [Hk _].
  unfold Number.toString, Number.toString_finite. rewrite E.
  pose proof (digits_no_point k s0) as Hds.
  pose proof (sign_no_point s) as Hs.
  destruct (Z.leb_spec (Z.of_nat k) n) as [Hkn|Hkn];
    [destruct (Z.leb_spec n 21) as [_|?]; [|lia]|]; cbn [andb].
  - rewrite split_no_sep; [simpl; lia|].
    rewrite !not_elem_of_app. auto using zeros_no_point.
  - destruct (Z.ltb_spec 0 n) as [Hn0|Hn0];
      [destruct (Z.leb_spec n 21) as [_|?]; [|lia]|]; cbn [andb].
    + change (js ".") with [46%N]. rewrite app_assoc. simpl.
      rewrite split_app_sep.
      2:{ rewrite not_elem_of_app. split; [done|].
          intros H. apply Hds. by eapply subseteq_take. }
      rewrite split_no_sep.
      2:{ intros H. apply Hds. by eapply subseteq_drop. }
      simpl. rewrite length_drop, digits_length. lia.
    + destruct (Z.ltb_spec (-6) n) as [_|?]; [|lia].
      destruct (Z.leb_spec n 0) as [_|?]; [|lia]. cbn [andb].
      change (js "0.") with ([48%N] ++ [46%N]). rewrite <- !app_assoc.
      rewrite (app_assoc _ [48%N]). simpl.
      rewrite split_app_sep.
      2:{ rewrite not_elem_of_app. split; [done|].
          by intros [=]%list_elem_of_singleton. }
      rewrite split_no_sep.
      2:{ rewrite not_elem_of_app. auto using zeros_no_point. }
      simpl. rewrite length_app, length_replicate, digits_length. lia.
Qed.

Lemma truthy_length s : (0 < length s)%nat → truthy s = true.
Proof. destruct s; simpl; [lia|done]. Qed.

Lemma decimal_no_point n : 46%N ∉ decimal n.
Proof. intros H%digits_range. lia. Qed.

(** The exponent of a Number below [10^-6] has fewer digits than the
    Number has zeros after the point. *)
Lemma exponent_short n :
  -400 ≤ n ≤ -6 →
  (length (decimal (Z.abs (n - 1))) + 1 ≤ Z.to_nat (- n))%nat.
Proof.
  intros Hn. pose proof (decimal_length (Z.abs (n - 1))) as [_ H].
  destruct (Z.le_gt_cases (Z.abs (n - 1)) 15) as [Hz|Hz].
  - assert (Z.log2 (Z.abs (n - 1)) ≤ Z.log2 15) by (by apply Z.log2_le_mono).
    change (Z.log2 15) with 3 in *. lia.
  - assert (Z.log2 (Z.abs (n - 1)) ≤ Z.log2 401) by (apply Z.log2_le_mono; lia).
    change (Z.log2 401) with 8 in *. lia.
Qed.

(** What stands after the point in the string of a Number below [10^-6]
    (the digits after the first, [e-] and the exponent) is not longer
    than the fractional part of its natural decimal representation. *)
Lemma fraction_of_toString_tiny s m e k s0 n :
  Number.shortest m e = (k, s0, n) → n ≤ -6 →
  match split 46%N (Number.toString (S754_finite s m e)) !! 1%nat with
  | Some d => (length d ≤ Z.to_nat (Z.of_nat k - n))%nat
  | None => True
  end.
Proof.
  intros E Hn. pose proof (shortest_bounds _ _ _ _ _ E) as [Hk Hb].
  unfold Number.toString, Number.toString_finite. rewrite E.
  pose proof (digits_no_point k s0) as Hds.
  pose proof (sign_no_point s) as Hs.
  pose proof (exponent_short n ltac:(lia)) as Hex.
  destruct (Z.leb_spec (Z.of_nat k) n) as [?|_]; [lia|].
  destruct (Z.ltb_spec 0 n) as [?|_]; [lia|].
  destruct (Z.ltb_spec (-6) n) as [?|_]; [lia|].
  destruct (Z.ltb_spec (n - 1) 0) as [_|?]; [|lia]. cbn [andb].
  destruct (Nat.eqb_spec k 1) as [->|Hk1].
  - rewrite split_no_sep; [done|].
    rewrite !not_elem_of_app. repeat split; try done;
      try (by intros [=]%list_elem_of_singleton).
    apply decimal_no_point.
  - change (js ".") with [46%N]. rewrite app_assoc. cbn [app].
    rewrite split_app_sep.
    2:{ rewrite not_elem_of_app. split; [done|].
        intros H. apply Hds. by eapply subseteq_take. }
    rewrite split_no_sep.
    2:{ rewrite !not_elem_of_app. repeat split;
          try (by intros [=]%list_elem_of_singleton).
        - intros H. apply Hds. by eapply subseteq_drop.
        - apply decimal_no_point. }
    cbn [lookup list_lookup]. rewrite !length_app, length_drop, digits_length.
    change (length (js "e")) with 1%nat. change (length (js "-")) with 1%nat.
    lia.
Qed.


(** ** The cookie reader *)

(** A piece cut at its first [=] is the name, the [=] and the value. *)
Lemma name_value_Some piece n v :
  name_value piece = Some (n, v) → piece = n ++ 61%N :: v.
Proof.
  revert n. induction piece as [|c piece IH]; intros n; simpl; [done|].
  destruct (N.eqb_spec c 61) as [->|_].
  - by intros [= <- <-].
  - destruct (name_value piece) as [[n' v']|]; simpl; [|done].
    intros [= <- <-]. by rewrite (IH n').
Qed.

(** A piece begins with [csrftoken=] exactly when its name is
    [csrftoken]; its value is then what follows the prefix. *)
Lemma begins_with_name cookie :
  take (length name_ + 1) cookie = name_ ++ js "=" →
  name_value cookie = Some (js "csrftoken", drop (length name_ + 1) cookie).
Proof.
  intros H. rewrite <- (take_drop (length name_ + 1) cookie) at 1.
  rewrite H. reflexivity.
Qed.

Lemma name_is_csrftoken cookie v :
  name_value cookie = Some (js "csrftoken", v) →
  take (length name_ + 1) cookie = name_ ++ js "=".
Proof. intros ->%name_value_Some. reflexivity. Qed.

Lemma getCookie_loop_spec pieces :
  getCookie_loop pieces
  = match first_named (js "csrftoken") (omap name_value (trim <$> pieces)) with
    | Some v => VStr <$> decodeURIComponent v
    | None => Normal VNull
    end.
Proof.
  induction pieces as [|c pieces IH]; [done|]. cbn [getCookie_loop fmap list_fmap omap list_omap].
  case_bool_decide as Hc.
  - rewrite (begins_with_name _ Hc). reflexivity.
  - rewrite IH. destruct (name_value (trim c)) as [[n v]|] eqn:E; [|done].
    unfold first_named. cbn [List.find fst]. case_bool_decide as Hn; [|done].
    subst n. by apply name_is_csrftoken in E.
Qed.

(** [getCookie] is the cookie reader of the specification. *)
Lemma getCookie_refines c : getCookie c = getCookie_spec c.
Proof.
  unfold getCookie, getCookie_spec, cookie_pairs.
  destruct c as [|c0 c]; [done|]. cbn [truthy andb].
  rewrite bool_decide_true by done. apply getCookie_loop_spec.
Qed.

(** ** The blocks of the response handler *)

Lemma bind_run {A B} (m : M A) (f : A → M B) st :
  (m ≫= f) st = match m st with
                | (Normal a, st') => f a st'
                | (Throw err, st') => (Throw err, st')
                end.
Proof. reflexivity. Qed.

Lemma get_field r key f : has_field r key f → get r key = Normal f.
Proof. unfold has_field. intros H. destruct r; simpl in *; rewrite ?H; done. Qed.

Lemma hasOwnProperty_inspectable f key :
  inspectable f →
  hasOwnProperty f key = Normal (bool_decide (is_Some (own_property f key))).
Proof.
  intros (Hu & Hn & H). unfold hasOwnProperty. rewrite H. by destruct f.
Qed.

Lemma get_inspectable f key v :
  inspectable f → own_property f key = Some v → get f key = Normal v.
Proof. intros (Hu & Hn & _) H. unfold get. rewrite H. by destruct f. Qed.

Lemma show_reading_absent r key id render st :
  own_property r key = None →
  show_reading r key id render st = (Throw TypeError, st).
Proof.
  intros H. unfold show_reading. rewrite !bind_run. unfold lift.
  destruct r; simpl in *; rewrite ?H; done.
Qed.

Lemma show_reading_failure r key id render st f :
  has_field r key f → failure f →
  show_reading r key id render st = (Normal (), st).
Proof.
  intros Hf [Hrec Hok]. unfold show_reading. rewrite !bind_run. unfold lift.
  rewrite (get_field _ _ _ Hf), bind_run, (hasOwnProperty_inspectable _ _ Hrec), Hok.
  done.
Qed.

Lemma show_reading_success r key id render st f x text st' :
  has_field r key f → success f x → is_Some (dom st !! id) →
  render (VNum x) st = (Normal text, st') →
  show_reading r key id render st = (Normal (), with_text id text st').
Proof.
  intros Hf [Hrec Hok] [old Hid] Hrender.
  unfold show_reading. rewrite !bind_run. unfold lift.
  rewrite (get_field _ _ _ Hf), bind_run, (hasOwnProperty_inspectable _ _ Hrec), Hok.
  rewrite bool_decide_true by eauto.
  rewrite bind_run. unfold getElementById. rewrite Hid.
  rewrite !bind_run.
  rewrite (get_inspectable _ _ _ Hrec Hok).
  rewrite bind_run, Hrender. done.
Qed.

Lemma render_1_run v st : render_1 v st = (format v 1, st).
Proof. reflexivity. Qed.

Lemma render_ec_run x st :
  render_ec (VNum x) st
  = (format (VNum (Number.mul x (Number.of_Z 1000000))) 0, st).
Proof. reflexivity. Qed.

Lemma render_ORP_run v st :
  render_ORP v st = (format v 0, with_global (js "disp") v st).
Proof. reflexivity. Qed.

Lemma renders_pH : renders render_1 text_pH.
Proof.
  intros x st. destruct (format_returns x 1) as [t E]; [lia|].
  exists t, st. by rewrite render_1_run, E.
Qed.

Lemma renders_ec : renders render_ec text_ec.
Proof.
  intros x st.
  destruct (format_returns (Number.mul x (Number.of_Z 1000000)) 0) as [t E]; [lia|].
  exists t, st. unfold text_ec. by rewrite render_ec_run, E.
Qed.

Lemma renders_ORP : renders render_ORP text_ORP.
Proof.
  intros x st. destruct (format_returns x 0) as [t E]; [lia|].
  exists t, (with_global (js "disp") (VNum x) st).
  unfold text_ORP. by rewrite render_ORP_run, E.
Qed.

Lemma shown_failure f id text d : failure f → shown f id text d = d.
Proof. intros [_ H]. unfold shown. by rewrite H. Qed.

Lemma shown_success f id text d x t :
  success f x → text x = Normal t → shown f id text d = <[id := t]> d.
Proof. intros [_ H] E. unfold shown. by rewrite H, E. Qed.


Lemma shown_is_Some f id text d j :
  is_Some (d !! j) → is_Some (shown f id text d !! j).
Proof.
  intros H. unfold shown. repeat case_match; try done.
  apply lookup_insert_is_Some'. by right.
Qed.


(** The block of a reading returns, and changes the texts as [shown]. *)
Lemma show_reading_shown r key id render text st f :
  has_field r key f → reading f → is_Some (dom st !! id) →
  renders render text →
  ∃ st', show_reading r key id render st = (Normal (), st')
         ∧ dom st' = shown f id text (dom st).
Proof.
  intros Hf [Hfail|[x Hx]] Hid Hrender.
  - exists st. split; [by eapply show_reading_failure|].
    by rewrite shown_failure.
  - destruct (Hrender x st) as (t & st1 & Ht & Hrun & Hdom).
    exists (with_text id t st1). split; [by eapply show_reading_success|].
    rewrite (shown_success _ _ _ _ x t) by done. simpl. by rewrite Hdom.
Qed.

(** A block either returns or throws. *)
Lemma bind_throws {A B} (m : M A) (k : A → M B) st :
  (∀ a st1, ∃ err st2, k a st1 = (Throw err, st2)) →
  ∃ err st2, (m ≫= k) st = (Throw err, st2).
Proof.
  intros Hk. rewrite bind_run. destruct (m st) as [[a|err] st1]; eauto.
Qed.

Lemma bind_throws_first {A B} (m : M A) (k : A → M B) st err st1 :
  m st = (Throw err, st1) → (m ≫= k) st = (Throw err, st1).
Proof. intros H. by rewrite bind_run, H. Qed.

(** The handler throws when a top-level field is absent. *)
Lemma response_handler_absent r key st :
  key ∈ [js "pH"; js "T"; js "ec"; js "ORP"] →
  own_property r key = None →
  ∃ err st', response_handler r st = (Throw err, st').
Proof.
  intros Hkey Habs. unfold response_handler.
  repeat (apply elem_of_cons in Hkey as [->|Hkey]).
  - eexists _, _. apply bind_throws_first. by apply show_reading_absent.
  - apply bind_throws. intros _ st1.
    eexists _, _. apply bind_throws_first. by apply show_reading_absent.
  - do 2 (apply bind_throws; intros _ ?).
    eexists _, _. apply bind_throws_first. by apply show_reading_absent.
  - do 3 (apply bind_throws; intros _ ?).
    eexists _, _. by apply show_reading_absent.
  - by apply elem_of_nil in Hkey.
Qed.


(** A display element exists, in a page with the four of them ([D]), also
    after texts were shown. *)
Ltac display D :=
  apply D; repeat first [apply list_elem_of_here | apply list_elem_of_further].
Ltac display_after D := repeat apply shown_is_Some; display D.

(** The next block of the handler is the block of the reading [R] of the
    field [H]; it leaves the page [st'] with the texts [E]. *)
Ltac next_block H R Hrenders Hdisplay st' E :=
  rewrite ?bind_run;
  edestruct show_reading_shown as (st' & -> & E);
  [exact H|exact R|Hdisplay|exact Hrenders|]; cbv beta iota.

Section Handler.

(** A response [r] whose field [pH] is a reading, handled on a page [st]
    that has the four display elements. *)
Variables (r : value) (st : page) (f1 : value).
Hypothesis D : displays st.
Hypothesis H1 : has_field r (js "pH") f1.
Hypothesis R1 : reading f1.

Lemma response_handler_stops_at_T :
  own_property r (js "T") = None →
  ∃ st', response_handler r st = (Throw TypeError, st')
    ∧ dom st' = shown f1 (js "ph-reading") text_pH (dom st).
Proof.
  intros A. unfold response_handler.
  next_block H1 R1 renders_pH ltac:(display D) st1 E1.
  rewrite bind_run, show_reading_absent by done.
  by exists st1.
Qed.

(** Its field [T] is a reading too. *)
Variable f2 : value.
Hypothesis H2 : has_field r (js "T") f2.
Hypothesis R2 : reading f2.

Lemma response_handler_stops_at_ec :
  own_property r (js "ec") = None →
  ∃ st', response_handler r st = (Throw TypeError, st')
    ∧ dom st' = shown f2 (js "temp-reading") text_T
                  (shown f1 (js "ph-reading") text_pH (dom st)).
Proof.
  intros A. unfold response_handler.
  next_block H1 R1 renders_pH ltac:(display D) st1 E1.
  next_block H2 R2 renders_pH ltac:(rewrite E1; display_after D) st2 E2.
  rewrite bind_run, show_reading_absent by done.
  exists st2. by rewrite E2, E1.
Qed.

(** And so is its field [ec]. *)
Variable f3 : value.
Hypothesis H3 : has_field r (js "ec") f3.
Hypothesis R3 : reading f3.

Lemma response_handler_stops_at_ORP :
  own_property r (js "ORP") = None →
  ∃ st', response_handler r st = (Throw TypeError, st')
    ∧ dom st' = shown f3 (js "ec-reading") text_ec
                  (shown f2 (js "temp-reading") text_T
                     (shown f1 (js "ph-reading") text_pH (dom st))).
Proof.
  intros A. unfold response_handler.
  next_block H1 R1 renders_pH ltac:(display D) st1 E1.
  next_block H2 R2 renders_pH ltac:(rewrite E1; display_after D) st2 E2.
  next_block H3 R3 renders_ec ltac:(rewrite E2, E1; display_after D) st3 E3.
  rewrite show_reading_absent by done.
  exists st3. by rewrite E3, E2, E1.
Qed.

(** And its field [ORP]: the handler returns. *)
Variable f4 : value.
Hypothesis H4 : has_field r (js "ORP") f4.
Hypothesis R4 : reading f4.

Lemma response_handler_readings :
  ∃ st', response_handler r st = (Normal (), st')
    ∧ dom st' = shown f4 (js "orp-reading") text_ORP
                  (shown f3 (js "ec-reading") text_ec
                     (shown f2 (js "temp-reading") text_T
                        (shown f1 (js "ph-reading") text_pH (dom st)))).
Proof.
  unfold response_handler.
  next_block H1 R1 renders_pH ltac:(display D) st1 E1.
  next_block H2 R2 renders_pH ltac:(rewrite E1; display_after D) st2 E2.
  next_block H3 R3 renders_ec ltac:(rewrite E2, E1; display_after D) st3 E3.
  next_block H4 R4 renders_ORP
    ltac:(rewrite E3, E2, E1; display_after D) st4 E4.
  exists st4. split; [done|]. by rewrite E4, E3, E2, E1.
Qed.

End Handler.

(** The handler on four successes. *)
Lemma response_handler_successes r f1 f2 f3 f4 x1 x2 x3 x4 st :
  has_field r (js "pH") f1 → has_field r (js "T") f2 →
  has_field r (js "ec") f3 → has_field r (js "ORP") f4 →
  success f1 x1 → success f2 x2 → success f3 x3 → success f4 x4 →
  displays st →
  ∃ t1 t2 t3 t4 st',
    format (VNum x1) 1 = Normal t1
    ∧ format (VNum x2) 1 = Normal t2
    ∧ format (VNum (Number.mul x3 (Number.of_Z 1000000))) 0 = Normal t3
    ∧ format (VNum x4) 0 = Normal t4
    ∧ response_handler r st = (Normal (), st')
    ∧ dom st' = <[js "orp-reading" := t4]>
                  (<[js "ec-reading" := t3]>
                     (<[js "temp-reading" := t2]>
                        (<[js "ph-reading" := t1]> (dom st)))).
Proof.
  intros H1 H2 H3 H4 S1 S2 S3 S4 D.
  destruct (format_returns x1 1) as [t1 E1]; [lia|].
  destruct (format_returns x2 1) as [t2 E2]; [lia|].
  destruct (format_returns (Number.mul x3 (Number.of_Z 1000000)) 0)
    as [t3 E3]; [lia|].
  destruct (format_returns x4 0) as [t4 E4]; [lia|].
  destruct (response_handler_readings r st f1 D H1 (or_intror (ex_intro _ x1 S1))
              f2 H2 (or_intror (ex_intro _ x2 S2))
              f3 H3 (or_intror (ex_intro _ x3 S3))
              f4 H4 (or_intror (ex_intro _ x4 S4)))
    as (st' & E & Hdom).
  exists t1, t2, t3, t4, st'. repeat (split; [done|]).
  rewrite Hdom.
  rewrite (shown_success f1 _ _ _ x1 t1), (shown_success f2 _ _ _ x2 t2),
    (shown_success f3 _ _ _ x3 t3), (shown_success f4 _ _ _ x4 t4); done.
Qed.

(** ** Requests *)


Lemma quiet_bind {A B} (m : M A) (k : A → M B) :
  quiet m → (∀ a, quiet (k a)) → quiet (m ≫= k).
Proof.
  intros Hm Hk st. rewrite bind_run. specialize (Hm st).
  destruct (m st) as [[a|err] st1]; simpl in *; [|done].
  destruct (Hk a st1) as [-> ->]. done.
Qed.

Lemma quiet_lift {A} (c : completion A) : quiet (lift c).
Proof. done. Qed.

Lemma quiet_ret {A} (a : A) : quiet (mret a).
Proof. done. Qed.

Lemma quiet_show_reading r key id render :
  (∀ v, quiet (render v)) → quiet (show_reading r key id render).
Proof.
  intros Hr. unfold show_reading.
  apply quiet_bind; [apply quiet_lift|intros f].
  apply quiet_bind; [apply quiet_lift|intros [|]]; [|apply quiet_ret].
  apply quiet_bind; [done|intros el].
  apply quiet_bind; [apply quiet_lift|intros f'].
  apply quiet_bind; [apply quiet_lift|intros v].
  apply quiet_bind; [apply Hr|intros text].
  intros st. by destruct el.
Qed.

Lemma quiet_response_handler r : quiet (response_handler r).
Proof.
  unfold response_handler.
  repeat (apply quiet_bind; [|intros _]); apply quiet_show_reading; intros v.
  - apply quiet_lift.
  - apply quiet_lift.
  - apply quiet_bind; [apply quiet_lift|intros; apply quiet_lift].
  - apply quiet_bind; [done|intros; apply quiet_lift].
Qed.

Lemma quiet_on_reply rep : quiet (on_reply rep).
Proof.
  destruct rep as [|[r|]]; try done.
  intros st. simpl. pose proof (quiet_response_handler r st) as H.
  by destruct (response_handler r st) as [[[]|err] st'].
Qed.

Lemma on_reply_returns rep st :
  ∃ outcome st', on_reply rep st = (Normal outcome, st').
Proof.
  destruct rep as [|[r|]]; simpl; eauto.
  destruct (response_handler r st) as [[[]|err] st']; eauto.
Qed.

Lemma update_readings_request server st :
  match getCookie (cookie st) with
  | Normal token =>
      ∃ outcome st',
        update_readings server st = (Normal outcome, st')
        ∧ requests st' = requests st ++ [readings_request token]
        ∧ cookie st' = cookie st
  | Throw err => update_readings server st = (Throw err, st)
  end.
Proof.
  unfold update_readings. rewrite bind_run. unfold document_cookie.
  rewrite bind_run. unfold lift.
  destruct (getCookie (cookie st)) as [token|err]; [|done].
  rewrite bind_run. unfold fetch.
  set (st1 := Page _ _ _ _).
  destruct (on_reply_returns (server (readings_request token)) st1)
    as (outcome & st' & E).
  pose proof (quiet_on_reply (server (readings_request token)) st1) as [Hr Hc].
  rewrite E in *. eauto.
Qed.

(** ** Agreement with the machine's binary64

    The literals of the examples, and some of the products and quotients
    [format] computes on them, are what the prover's own binary64
    numbers give. *)

#[warnings="-inexact-float"]
Example literals_agree :
  Number.of_decimal 701 (-2) = Prim2SF 7.01%float
  ∧ Number.of_decimal 250 (-1) = Prim2SF 25.0%float
  ∧ Number.of_decimal 15 (-4) = Prim2SF 0.0015%float
  ∧ Number.of_decimal 1502 (-1) = Prim2SF 150.2%float
  ∧ Number.of_decimal 12345 (-3) = Prim2SF 12.345%float
  ∧ Number.of_decimal 12345 (-4) = Prim2SF 1.2345%float
  ∧ Number.of_decimal (-25) (-2) = Prim2SF (-0.25)%float
  ∧ Number.of_decimal 1 21 = Prim2SF 1e21%float.
Proof. repeat split; vm_compute; reflexivity. Qed.

#[warnings="-inexact-float"]
Example arithmetic_agrees :
  Number.mul (Number.of_decimal 15 (-4)) (Number.of_Z 1000000)
  = Prim2SF (0.0015 * 1000000)%float
  ∧ Number.mul (Number.of_decimal 701 (-2)) (Number.pow10 1)
    = Prim2SF (7.01 * 10)%float
  ∧ Number.mul (Number.of_decimal 12345 (-4)) (Number.pow10 2)
    = Prim2SF (1.2345 * 100)%float
  ∧ Number.div (Number.of_Z 123) (Number.pow10 2) = Prim2SF (123 / 100)%float
  ∧ Number.div (Number.of_Z 3) (Number.pow10 1) = Prim2SF (3 / 10)%float.
Proof. repeat split; vm_compute; reflexivity. Qed.

(** ** Ties of [Math.round] *)

Lemma round_half_way x k :
  half_way x k →
  Number.round x = if k + 1 =? 0 then S754_zero true else Number.of_Z (k + 1).
Proof.
  destruct x as [| | |s m e]; try done. intros [He Hx].
  unfold Number.round. destruct (Z.leb_spec 0 e) as [?|_]; [lia|].
  assert (0 < 2 ^ (- e)) as Hpos by (apply Z.pow_pos_nonneg; lia).
  replace (2 ^ (1 - e)) with (2 * 2 ^ (- e))
    by (replace (1 - e) with (Z.succ (- e)) by lia; rewrite Z.pow_succ_r; lia).
  rewrite Hx.
  replace ((2 * k + 1) * 2 ^ (- e) + 2 ^ (- e)) with ((k + 1) * (2 * 2 ^ (- e))) by lia.
  rewrite Z.div_mul by lia.
  destruct (Z.eqb_spec (k + 1) 0) as [Hk|_]; [|done].
  destruct s; [done|]. lia.
Qed.

(** ** The examples *)

(** Evaluation of the hypotheses of the properties at the examples. *)
Ltac is_variant :=
  split; [split; [discriminate|split; [discriminate|]]|];
  vm_compute; reflexivity.
Ltac has_displays :=
  let id := fresh "id" in
  let H := fresh "H" in
  intros id H; repeat (apply elem_of_cons in H as [->|H]);
  [eexists; vm_compute; reflexivity ..|by apply elem_of_nil in H].

Lemma example_fields :
  has_field example_response (js "pH") (Ok (Number.of_decimal 701 (-2)))
  ∧ has_field example_response (js "T") (Ok (Number.of_decimal 250 (-1)))
  ∧ has_field example_response (js "ec") (Ok (Number.of_decimal 15 (-4)))
  ∧ has_field example_response (js "ORP") (Ok (Number.of_decimal 1502 (-1))).
Proof. repeat split; vm_compute; reflexivity. Qed.

Lemma success_Ok x : success (Ok x) x.
Proof.
  split; [split; [done|split; [done|]]|]; simpl.
  - by apply lookup_singleton_ne.
  - apply lookup_singleton_eq.
Qed.

(** ** Responses and pages outside the data model

    What the hypotheses [inspectable] and [displays] of the properties
    below exclude: a field with a member [hasOwnProperty] of its own, a
    field that is [null], and a page without the display elements, make
    the handler throw a TypeError before it writes anything. *)

Example hidden_method_throws :
  response_handler response_hidden_method (example_page [])
  = (Throw TypeError, example_page []).
Proof. vm_compute. reflexivity. Qed.

Example null_field_throws :
  response_handler response_null_pH (example_page [])
  = (Throw TypeError, example_page []).
Proof. vm_compute. reflexivity. Qed.

Example missing_element_throws :
  (response_handler example_response empty_page).1 = Throw TypeError
  ∧ dom (response_handler example_response empty_page).2 = ∅.
Proof. split; vm_compute; reflexivity. Qed.

(** Below [10^-6] the digit count of the formatter is not that of the
    natural decimal representation: with the precision 23, for which
    [10 ** 23] is not exact, the rounded value of 1e-23 is
    [1.0000000000000001e-23]; what follows the point in its string has 20
    code units, so [format] keeps 23 digits, where the representation has
    39 after the point. *)
Example format_tiny_long :
  Number.toString (rounded (Number.of_decimal 1 (-23)) 23)
  = js "1.0000000000000001e-23"
  ∧ fraction_digits (rounded (Number.of_decimal 1 (-23)) 23) = 39%nat
  ∧ format (VNum (Number.of_decimal 1 (-23))) 23
    = Normal (js "0.00000000000000000000001").
Proof. repeat split; vm_compute; reflexivity. Qed.

(** * The claims of the specification *)

(** C1. For every parsed response whose four fields pH, T, ec, ORP carry
    the success tag [Ok] with a numeric payload, and every page that has
    the four display elements, the response handler returns and
    has written [format(pH, 1)] to ph-reading, [format(T, 1)] to
    temp-reading, [format(ec * 1000000, 0)] to ec-reading and
    [format(ORP, 0)] to orp-reading.  For the response
    [{pH: {Ok: 7.01}, T: {Ok: 25.0}, ec: {Ok: 0.0015}, ORP: {Ok: 150.2}}]
    the four texts are "7.0", "25.0", "1500" and "150". *)
Theorem handler_shows_four_successes :
  (∀ r f1 f2 f3 f4 x1 x2 x3 x4 st,
     has_field r (js "pH") f1 → has_field r (js "T") f2 →
     has_field r (js "ec") f3 → has_field r (js "ORP") f4 →
     success f1 x1 → success f2 x2 → success f3 x3 → success f4 x4 →
     displays st →
     ∃ t1 t2 t3 t4 st',
       format (VNum x1) 1 = Normal t1
       ∧ format (VNum x2) 1 = Normal t2
       ∧ format (VNum (Number.mul x3 (Number.of_Z 1000000))) 0 = Normal t3
       ∧ format (VNum x4) 0 = Normal t4
       ∧ response_handler r st = (Normal (), st')
       ∧ dom st' = <[js "orp-reading" := t4]>
                     (<[js "ec-reading" := t3]>
                        (<[js "temp-reading" := t2]>
                           (<[js "ph-reading" := t1]> (dom st)))))
  ∧ (∀ st, displays st →
       ∃ st', response_handler example_response st = (Normal (), st')
         ∧ dom st' !! js "ph-reading" = Some (js "7.0")
         ∧ dom st' !! js "temp-reading" = Some (js "25.0")
         ∧ dom st' !! js "ec-reading" = Some (js "1500")
         ∧ dom st' !! js "orp-reading" = Some (js "150")).
Proof.
  split; [apply response_handler_successes|].
  intros st D. destruct example_fields as (H1 & H2 & H3 & H4).
  destruct (response_handler_successes _ _ _ _ _ _ _ _ _ _ H1 H2 H3 H4
              (success_Ok _) (success_Ok _) (success_Ok _) (success_Ok _) D)
    as (t1 & t2 & t3 & t4 & st' & E1 & E2 & E3 & E4 & E & Hdom).
  vm_compute in E1, E2, E3, E4.
  injection E1 as <-. injection E2 as <-. injection E3 as <-.
  injection E4 as <-.
  exists st'. split; [exact E|]. rewrite Hdom.
  repeat split; rewrite ?lookup_insert_ne by distinct;
    apply lookup_insert_eq.
Qed.

Lemma handler_shows_four_successes_witness :
  ∃ t1 t2 t3 t4 st',
    format (VNum (Number.of_decimal 701 (-2))) 1 = Normal t1
    ∧ format (VNum (Number.of_decimal 250 (-1))) 1 = Normal t2
    ∧ format (VNum (Number.mul (Number.of_decimal 15 (-4))
                     (Number.of_Z 1000000))) 0 = Normal t3
    ∧ format (VNum (Number.of_decimal 1502 (-1))) 0 = Normal t4
    ∧ response_handler example_response (example_page []) = (Normal (), st')
    ∧ dom st' = <[js "orp-reading" := t4]>
                  (<[js "ec-reading" := t3]>
                     (<[js "temp-reading" := t2]>
                        (<[js "ph-reading" := t1]> (dom (example_page []))))).
Proof.
  apply (proj1 handler_shows_four_successes example_response
           (Ok (Number.of_decimal 701 (-2))) (Ok (Number.of_decimal 250 (-1)))
           (Ok (Number.of_decimal 15 (-4))) (Ok (Number.of_decimal 1502 (-1))));
    try (vm_compute; reflexivity); try is_variant.
  has_displays.
Defined.

(** C2, as amended.  For every Number [v] and precision [p] such that
    [r = round(v * 10^p) / 10^p] is zero or finite with a magnitude below
    10^21, such that [max(p, d)] is at most 100 and, when the magnitude of
    [r] is below 10^-6 (its string form has an exponent), [d] is at most
    [p]: [format(v, p)] is the fixed-point rendering of [r] with
    [max(p, d)] fractional digits, [d] being the number of fractional
    digits of the natural decimal representation of [r]. *)
Theorem format_fixed_point v p :
  plain (rounded v p) = true
  ∨ tiny (rounded v p) = true ∧ (fraction_digits (rounded v p) ≤ p)%nat →
  (Nat.max p (fraction_digits (rounded v p)) ≤ 100)%nat →
  format (VNum v) p = Normal (format_spec v p).
Proof.
  unfold format, format_spec. simpl. fold (rounded v p).
  destruct (rounded v p) as [s|s| |s m e] eqn:Er; intros Hr Hlen;
    try (by destruct Hr as [?|[? _]]).
  - simpl in *. rewrite Nat.max_0_r in *. unfold Number.toFixed.
    destruct (Nat.ltb_spec 100 p); [lia|done].
  - cbn [plain tiny fraction_digits] in *.
    destruct (Number.shortest m e) as [[k s0] n] eqn:E.
    destruct Hr as [Hplain|[Htiny Hd]].
    + apply andb_prop in Hplain as [Hn Hlt%negb_true_iff].
      pose proof (fraction_of_toString s m e k s0 n E) as Hd.
      destruct (split _ _ !! _) as [d|].
      * destruct Hd as [Hd Hpos]; [lia|]. rewrite truthy_length by done.
        cbn [andb]. rewrite Hd.
        replace (if (p <? _)%nat then _ else p)
          with (Nat.max p (Z.to_nat (Z.of_nat k - n)))
          by (destruct (Nat.ltb_spec p (Z.to_nat (Z.of_nat k - n))); lia).
        unfold Number.toFixed, fixed_point. rewrite Hlt.
        destruct (Nat.ltb_spec 100 (Nat.max p (Z.to_nat (Z.of_nat k - n))));
          [lia|done].
      * rewrite Hd by lia. rewrite Nat.max_0_r in *.
        unfold Number.toFixed, fixed_point. rewrite Hlt.
        destruct (Nat.ltb_spec 100 p); [lia|done].
    + apply andb_prop in Htiny as [Hn%Z.leb_le Hlt%negb_true_iff].
      pose proof (fraction_of_toString_tiny s m e k s0 n E Hn) as Hdec.
      rewrite Nat.max_l in * by done.
      assert (Number.toFixed (S754_finite s m e) p
              = Normal (fixed_point (S754_finite s m e) p)) as Hfixed.
      { unfold Number.toFixed, fixed_point. rewrite Hlt.
        destruct (Nat.ltb_spec 100 p); [lia|done]. }
      destruct (split _ _ !! _) as [d|]; [|done].
      destruct (Nat.ltb_spec p (length d)); [lia|].
      by rewrite andb_false_r.
Qed.

(** C2 fails as stated: for the value 1e21 and the precision 0 the
    rounded value is 1e21, whose fixed-point rendering without fractional
    digits is a 1 followed by 21 zeros; [format] returns "1e+21". *)
Lemma format_large_is_exponential :
  format (VNum (Number.of_decimal 1 21)) 0 = Normal (js "1e+21")
  ∧ format_spec (Number.of_decimal 1 21) 0 = js "1000000000000000000000"
  ∧ format (VNum (Number.of_decimal 1 21)) 0
    ≠ Normal (format_spec (Number.of_decimal 1 21) 0).
Proof. repeat split; vm_compute; (reflexivity || discriminate). Qed.

Lemma format_fixed_point_witness :
  (plain (rounded (Number.of_decimal 12345 (-3)) 1) = true
   ∧ format (VNum (Number.of_decimal 12345 (-3))) 1
     = Normal (format_spec (Number.of_decimal 12345 (-3)) 1)
   ∧ format_spec (Number.of_decimal 12345 (-3)) 1 = js "12.3")
  ∧ (tiny (rounded (Number.of_decimal 15 (-8)) 8) = true
     ∧ format (VNum (Number.of_decimal 15 (-8))) 8
       = Normal (format_spec (Number.of_decimal 15 (-8)) 8)
     ∧ format_spec (Number.of_decimal 15 (-8)) 8 = js "0.00000015").
Proof.
  split; (split; [vm_compute; reflexivity|]);
    (split; [|vm_compute; reflexivity]).
  - apply (format_fixed_point (Number.of_decimal 12345 (-3)) 1).
    + left. vm_compute. reflexivity.
    + vm_compute. lia.
  - apply (format_fixed_point (Number.of_decimal 15 (-8)) 8).
    + right. split; [vm_compute; reflexivity|vm_compute; lia].
    + vm_compute. lia.
Defined.




(** C4, as amended.  For every cookie string, [getCookie] is the cookie
    reader of the specification: of the pieces between semicolons,
    trimmed, it takes the first of the form [name=value] whose name is
    exactly [csrftoken] and decodes its value, returning the decoded
    string when the value is well-formed and throwing a URIError when it
    is not; without such a piece, and for the empty cookie string, it
    returns [null].  A name that only begins with [csrftoken] does not
    match. *)
Theorem getCookie_first_csrftoken :
  (∀ c, getCookie c = getCookie_spec c)
  ∧ getCookie [] = Normal VNull
  ∧ getCookie (js "csrftoken=abc123; other=xyz") = Normal (VStr (js "abc123"))
  ∧ getCookie (js "csrftokenx=abc123; other=xyz") = Normal VNull
  ∧ getCookie (js "other=xyz; csrftoken=a%20b; csrftoken=c")
    = Normal (VStr (js "a b")).
Proof. split; [apply getCookie_refines|]. repeat split. Qed.

(** C4 fails as stated: for the cookie string [csrftoken=%], whose value
    is no percent-encoding, [getCookie] returns nothing; it throws. *)
Lemma getCookie_throws : getCookie (js "csrftoken=%") = Throw URIError.
Proof. reflexivity. Qed.

(** C5. For every parsed response in which one of the four top-level
    fields pH, T, ec, ORP is absent, the response handler throws, and the
    promise of the chain is rejected with what it threw; a request that
    gets no response and a response whose body is no JSON text reject it
    too, with the page left as it was.  Nothing handles the rejection. *)
Theorem absent_field_rejects :
  (∀ r key st,
     key ∈ [js "pH"; js "T"; js "ec"; js "ORP"] →
     own_property r key = None →
     ∃ err st',
       response_handler r st = (Throw err, st')
       ∧ on_reply (Response (Some r)) st = (Normal (Rejected err), st'))
  ∧ (∀ st, on_reply Unreachable st = (Normal (Rejected TypeError), st))
  ∧ (∀ st, on_reply (Response None) st = (Normal (Rejected SyntaxError), st)).
Proof.
  split; [|done]. intros r key st Hkey Habs.
  destruct (response_handler_absent r key st Hkey Habs) as (err & st' & E).
  exists err, st'. split; [done|]. simpl. by rewrite E.
Qed.

Lemma absent_field_rejects_witness :
  ∃ err st',
    response_handler response_without_T (example_page []) = (Throw err, st')
    ∧ on_reply (Response (Some response_without_T)) (example_page [])
      = (Normal (Rejected err), st').
Proof.
  apply (proj1 absent_field_rejects response_without_T (js "T")).
  - apply elem_of_cons. right. apply elem_of_cons. by left.
  - vm_compute. reflexivity.
Defined.

(** C6. One invocation of [update_readings] on the example response
    changes a global variable: [disp], unset before, holds the payload
    150.2 of ORP afterwards, so the invocation changes more than the
    four texts and the request log. *)
Theorem update_readings_sets_disp :
  (update_readings (answering example_response)
     (example_page (js "csrftoken=abc123; other=xyz"))).1 = Normal Fulfilled
  ∧ globals (example_page (js "csrftoken=abc123; other=xyz")) !! js "disp"
    = None
  ∧ globals
      (update_readings (answering example_response)
         (example_page (js "csrftoken=abc123; other=xyz"))).2 !! js "disp"
    = Some (VNum (Number.of_decimal 1502 (-1))).
Proof. repeat split; vm_compute; reflexivity. Qed.

(** C7. [format(12.345, 1)] is "12.3", [format(5, 0)] is "5" with no
    decimal point, and [format(1.2345, 2)] is "1.23": scaling by 100,
    rounding and scaling back gives 1.23, which has two fractional
    digits, as many as the precision. *)
Theorem format_test_vectors :
  format (VNum (Number.of_decimal 12345 (-3))) 1 = Normal (js "12.3")
  ∧ format (VNum (Number.of_Z 5)) 0 = Normal (js "5")
  ∧ format (VNum (Number.of_decimal 12345 (-4))) 2 = Normal (js "1.23")
  ∧ rounded (Number.of_decimal 12345 (-4)) 2 = Number.of_decimal 123 (-2)
  ∧ fraction_digits (rounded (Number.of_decimal 12345 (-4)) 2) = 2%nat.
Proof. repeat split; vm_compute; reflexivity. Qed.

(** C8, as amended.  An invocation of [update_readings] on which
    [getCookie] returns hands exactly one request to [fetch]: GET
    /api/readings, credentials included, with the header X-CSRFToken set
    to what [getCookie] returned for the cookie string of that invocation
    ([null] without a csrftoken cookie) and the three fixed headers; the
    cookie string is left as it was.  When [getCookie] throws, so does
    [update_readings], and no request is made.  Nothing is kept between
    invocations: after a change of the cookie string the next request
    carries the token of the new one. *)
Theorem update_readings_one_request :
  (∀ server st,
     match getCookie (cookie st) with
     | Normal token =>
         ∃ outcome st',
           update_readings server st = (Normal outcome, st')
           ∧ requests st'
             = requests st
                 ++ [ {| url := js "/api/readings";
                         method := js "GET";
                         headers :=
                           [ (js "X-CSRFToken", token);
                             (js "Content-Type",
                              VStr (js "application/json; charset=UTF-8"));
                             (js "Accept", VStr (js "application/json"));
                             (js "X-Requested-With",
                              VStr (js "XMLHttpRequest")) ];
                         credentials := js "include" |} ]
           ∧ cookie st' = cookie st
     | Throw err => update_readings server st = (Throw err, st)
     end)
  ∧ (∀ server1 server2 st outcome1 st1 c2 token1 token2,
       getCookie (cookie st) = Normal token1 →
       update_readings server1 st = (Normal outcome1, st1) →
       getCookie c2 = Normal token2 →
       ∃ outcome2 st2,
         update_readings server2 (with_cookie c2 st1) = (Normal outcome2, st2)
         ∧ requests st2
           = requests st
               ++ [readings_request token1; readings_request token2]).
Proof.
  split; [apply update_readings_request|].
  intros server1 server2 st outcome1 st1 c2 token1 token2 G1 U1 G2.
  pose proof (update_readings_request server1 st) as R1.
  rewrite G1 in R1. destruct R1 as (o1 & st1' & U1' & R1 & _).
  rewrite U1 in U1'. injection U1' as <- <-.
  pose proof (update_readings_request server2 (with_cookie c2 st1)) as R2.
  cbn [cookie with_cookie] in R2. rewrite G2 in R2.
  destruct R2 as (outcome2 & st2 & U2 & R2 & _).
  exists outcome2, st2. split; [done|].
  rewrite R2. cbn [requests with_cookie]. rewrite R1.
  by rewrite <- app_assoc.
Qed.

Lemma update_readings_one_request_witness :
  ∃ outcome2 st2,
    update_readings (answering example_response)
      (with_cookie []
         (update_readings (λ _, Unreachable)
            (example_page (js "csrftoken=abc123; other=xyz"))).2)
    = (Normal outcome2, st2)
    ∧ requests st2
      = requests (example_page (js "csrftoken=abc123; other=xyz"))
          ++ [readings_request (VStr (js "abc123")); readings_request VNull].
Proof.
  apply (proj2 update_readings_one_request (λ _, Unreachable)
           (answering example_response)
           (example_page (js "csrftoken=abc123; other=xyz"))
           (Rejected TypeError)).
  - vm_compute. reflexivity.
  - vm_compute. reflexivity.
  - vm_compute. reflexivity.
Defined.

(** C8 fails as stated: with the cookie string [csrftoken=%] the
    invocation throws a URIError and no request is made. *)
Lemma update_readings_without_request :
  update_readings (answering example_response) (example_page (js "csrftoken=%"))
  = (Throw URIError, example_page (js "csrftoken=%"))
  ∧ requests (example_page (js "csrftoken=%")) = [].
Proof. split; vm_compute; reflexivity. Qed.

(** C9. The response handler treats the four fields in the order pH, T,
    ec, ORP and is not atomic: when the handler throws at a field that is
    absent, the texts written for the readings before it stay.  For a
    response with [pH: {Ok: v}] and no field [T], ph-reading shows
    [format(v, 1)], the handler throws a TypeError, and temp-reading,
    ec-reading and orp-reading show what they showed before. *)
Theorem handler_keeps_earlier_writes :
  (∀ r f1 x st,
     has_field r (js "pH") f1 → success f1 x →
     own_property r (js "T") = None → displays st →
     ∃ t st',
       format (VNum x) 1 = Normal t
       ∧ response_handler r st = (Throw TypeError, st')
       ∧ dom st' = <[js "ph-reading" := t]> (dom st)
       ∧ dom st' !! js "temp-reading" = dom st !! js "temp-reading"
       ∧ dom st' !! js "ec-reading" = dom st !! js "ec-reading"
       ∧ dom st' !! js "orp-reading" = dom st !! js "orp-reading")
  ∧ (∀ r f1 st,
       has_field r (js "pH") f1 → reading f1 →
       own_property r (js "T") = None → displays st →
       ∃ st',
         response_handler r st = (Throw TypeError, st')
         ∧ dom st' = shown f1 (js "ph-reading") text_pH (dom st))
  ∧ (∀ r f1 f2 st,
       has_field r (js "pH") f1 → has_field r (js "T") f2 →
       reading f1 → reading f2 →
       own_property r (js "ec") = None → displays st →
       ∃ st',
         response_handler r st = (Throw TypeError, st')
         ∧ dom st' = shown f2 (js "temp-reading") text_T
                       (shown f1 (js "ph-reading") text_pH (dom st)))
  ∧ (∀ r f1 f2 f3 st,
       has_field r (js "pH") f1 → has_field r (js "T") f2 →
       has_field r (js "ec") f3 →
       reading f1 → reading f2 → reading f3 →
       own_property r (js "ORP") = None → displays st →
       ∃ st',
         response_handler r st = (Throw TypeError, st')
         ∧ dom st' = shown f3 (js "ec-reading") text_ec
                       (shown f2 (js "temp-reading") text_T
                          (shown f1 (js "ph-reading") text_pH (dom st)))).
Proof.
  refine (conj _ (conj _ (conj _ _))).
  - intros r f1 x st H1 S1 A D.
    destruct (format_returns x 1) as [t Et]; [lia|].
    destruct (response_handler_stops_at_T r st f1 D H1
                (or_intror (ex_intro _ x S1)) A) as (st' & E & Hdom).
    rewrite (shown_success _ _ _ _ x t S1 Et) in Hdom.
    exists t, st'. rewrite Hdom.
    by rewrite !lookup_insert_ne by distinct.
  - intros. by eapply response_handler_stops_at_T.
  - intros. by eapply response_handler_stops_at_ec.
  - intros. by eapply response_handler_stops_at_ORP.
Qed.

Lemma handler_keeps_earlier_writes_witness :
  ∃ t st',
    format (VNum (Number.of_decimal 701 (-2))) 1 = Normal t
    ∧ response_handler response_without_T (example_page [])
      = (Throw TypeError, st')
    ∧ dom st' = <[js "ph-reading" := t]> (dom (example_page []))
    ∧ dom st' !! js "temp-reading" = dom (example_page []) !! js "temp-reading"
    ∧ dom st' !! js "ec-reading" = dom (example_page []) !! js "ec-reading"
    ∧ dom st' !! js "orp-reading" = dom (example_page []) !! js "orp-reading".
Proof.
  apply (proj1 handler_keeps_earlier_writes response_without_T
           (Ok (Number.of_decimal 701 (-2)))).
  - vm_compute. reflexivity.
  - is_variant.
  - vm_compute. reflexivity.
  - has_displays.
Defined.

(** C10. [Math.round] takes a value exactly half-way between two integers
    to the upper one, whatever its sign and whether or not the upper one
    is even; so [format(2.5, 0)] is "3" and [format(-2.5, 0)] is "-2",
    [format(0.25, 1)] is "0.3" and [format(-0.25, 1)] is "-0.2". *)
Theorem round_ties_go_up :
  (∀ x k, half_way x k →
     Number.round x
     = if k + 1 =? 0 then S754_zero true else Number.of_Z (k + 1))
  ∧ format (VNum (Number.of_decimal 25 (-1))) 0 = Normal (js "3")
  ∧ format (VNum (Number.of_decimal (-25) (-1))) 0 = Normal (js "-2")
  ∧ format (VNum (Number.of_decimal 25 (-2))) 1 = Normal (js "0.3")
  ∧ format (VNum (Number.of_decimal (-25) (-2))) 1 = Normal (js "-0.2").
Proof.
  split; [apply round_half_way|]. repeat split; vm_compute; reflexivity.
Qed.

Lemma round_ties_go_up_witness :
  half_way (Number.of_decimal (-25) (-1)) (-3)
  ∧ Number.round (Number.of_decimal (-25) (-1)) = Number.of_Z (-2).
Proof.
  split; [vm_compute; split; reflexivity|].
  apply (proj1 round_ties_go_up (Number.of_decimal (-25) (-1)) (-3)).
  vm_compute. split; reflexivity.
Defined.

(** * Further properties of the code *)

(** ** The formatter *)

Lemma format_unfold x p :
  format (VNum x) p = Number.toFixed (rounded x p) (format_len (rounded x p) p).
Proof. reflexivity. Qed.

(** [len] is at least the precision, and more only by what [toString]
    writes after a point. *)
Lemma format_len_bounds r p :
  (p ≤ format_len r p ≤ Nat.max p 41)%nat.
Proof.
  unfold format_len. destruct (split _ _ !! _) as [d|] eqn:E; [|lia].
  apply lookup_split_length in E. pose proof (toString_length r).
  destruct (truthy d && (p <? length d)%nat) eqn:Hb; [|lia].
  apply andb_prop in Hb as [_ Hb%Nat.ltb_lt]. lia.
Qed.

(** X1. For every Number [x], [format(x, p)] throws a RangeError when the
    precision [p] is above 100, and returns a string for every precision
    up to 100. *)
Theorem format_range_error x p :
  if (100 <? p)%nat then format (VNum x) p = Throw RangeError
  else ∃ t, format (VNum x) p = Normal t.
Proof.
  destruct (Nat.ltb_spec 100 p) as [Hp|Hp].
  - rewrite format_unfold. unfold Number.toFixed.
    pose proof (format_len_bounds (rounded x p) p).
    destruct (Nat.ltb_spec 100 (format_len (rounded x p) p)); [done|lia].
  - by apply format_returns.
Qed.

Lemma pow10_positive_finite p :
  (p ≤ 100)%nat → positive_finite (Number.pow10 p) = true.
Proof.
  intros Hp.
  assert (forallb (λ p, positive_finite (Number.pow10 p)) (seq 0 101) = true)
    as H by (vm_compute; reflexivity).
  rewrite forallb_forall in H. apply H, in_seq. lia.
Qed.

Lemma fixed_digits_zero p :
  Number.fixed_digits 0 p
  = if (p =? 0)%nat then js "0" else js "0." ++ replicate p 48%N.
Proof.
  unfold Number.fixed_digits. change (decimal 0) with [48%N].
  destruct (Nat.eqb_spec p 0) as [->|Hp]; [done|].
  cbn [length]. replace (S p - 1)%nat with p by lia.
  rewrite length_app, length_replicate. cbn [length].
  replace (p + 1 - p)%nat with 1%nat by lia.
  by rewrite <- replicate_cons_app.
Qed.

(** X2. For every precision [p] up to 100, [format(NaN, p)] is "NaN",
    [format(Infinity, p)] is "Infinity", [format(-Infinity, p)] is
    "-Infinity", and [format] of a zero of either sign is "0" for [p = 0]
    and "0." followed by [p] zeros otherwise, without a sign. *)
Theorem format_special_values p :
  (p ≤ 100)%nat →
  format (VNum S754_nan) p = Normal (js "NaN")
  ∧ format (VNum (S754_infinity false)) p = Normal (js "Infinity")
  ∧ format (VNum (S754_infinity true)) p = Normal (js "-Infinity")
  ∧ ∀ s, format (VNum (S754_zero s)) p
         = Normal (if (p =? 0)%nat then js "0"
                   else js "0." ++ replicate p 48%N).
Proof.
  intros Hp. pose proof (pow10_positive_finite p Hp) as Hpow.
  rewrite <- fixed_digits_zero.
  assert (∀ x, x = S754_nan ∨ (∃ s, x = S754_infinity s)
               ∨ (∃ s, x = S754_zero s) →
               rounded x p = x ∧ format_len x p = p) as Hr.
  { intros x Hx. unfold rounded.
    destruct (Number.pow10 p) as [| | |[|] m e]; try done.
    destruct Hx as [->|[[[] ->]|[[] ->]]]; done. }
  split; [|split; [|split; [|intros s]]];
    rewrite format_unfold;
    (edestruct Hr as [-> ->]; [eauto|]);
    unfold Number.toFixed;
    (destruct (Nat.ltb_spec 100 p); [lia|]); done.
Qed.

Lemma format_special_values_witness :
  format (VNum S754_nan) 1 = Normal (js "NaN")
  ∧ format (VNum (S754_infinity false)) 1 = Normal (js "Infinity")
  ∧ format (VNum (S754_infinity true)) 1 = Normal (js "-Infinity")
  ∧ ∀ s, format (VNum (S754_zero s)) 1 = Normal (js "0.0").
Proof. apply (format_special_values 1). lia. Defined.

Lemma toFixed_fixed_range r f :
  fixed_range r = true → (f ≤ 100)%nat →
  Number.toFixed r f
  = Normal ((if negative r then js "-" else [])
            ++ Number.fixed_digits (scaled r f) f).
Proof.
  intros Hr Hf. unfold Number.toFixed.
  destruct (Nat.ltb_spec 100 f); [lia|].
  destruct r as [s|s| |s m e]; try done; simpl in *.
  apply negb_true_iff in Hr. rewrite Hr. by destruct s.
Qed.

Lemma decimal_nonempty n : decimal n ≠ [].
Proof.
  pose proof (decimal_length n) as [H _].
  destruct (decimal n); simpl in *; [lia|done].
Qed.

Lemma Forall_is_digit_digits k s : Forall (λ c, is_digit c = true) (digits k s).
Proof.
  apply Forall_forall. intros c Hc%digits_range.
  unfold is_digit. apply andb_true_intro. split; apply N.leb_le; lia.
Qed.

(** The digits of [fixed_digits n f]: an integer part that is not empty
    and [f] digits after the point, which together are the decimal
    representation of [n] with zeros to its left. *)
Lemma fixed_digits_parts n f :
  ∃ int frac,
    Number.fixed_digits n f
    = int ++ (if (f =? 0)%nat then [] else js "." ++ frac)
    ∧ int ≠ [] ∧ length frac = f
    ∧ ∃ k, int ++ frac = replicate k 48%N ++ decimal n.
Proof.
  unfold Number.fixed_digits.
  destruct (Nat.eqb_spec f 0) as [->|Hf].
  - exists (decimal n), []. rewrite !app_nil_r.
    split; [done|]. split; [apply decimal_nonempty|]. split; [done|].
    by exists 0%nat.
  - set (ms := replicate _ _ ++ decimal n).
    assert (S f ≤ length ms)%nat as Hlen.
    { subst ms. rewrite length_app, length_replicate. lia. }
    exists (take (length ms - f) ms), (drop (length ms - f) ms).
    split; [done|]. split.
    { intros H. apply (f_equal length) in H. rewrite length_take in H.
      simpl in H. lia. }
    split; [rewrite length_drop; lia|].
    rewrite take_drop. by eexists.
Qed.

Lemma digits_value_zeros k acc s :
  digits_value 10 acc (replicate k 48%N ++ s)
  = digits_value 10 (10 ^ Z.of_nat k * acc) s.
Proof.
  revert acc. induction k as [|k IH]; intros acc.
  - simpl. f_equal. lia.
  - cbn [replicate app digits_value]. change (digit_value 10 48%N) with (Some 0).
    cbn [mbind option_bind]. rewrite IH. f_equal.
    rewrite Nat2Z.inj_succ, Z.pow_succ_r by lia. lia.
Qed.

Lemma scaled_nonneg r f : 0 ≤ scaled r f.
Proof.
  destruct r as [| | |s m e]; simpl; try lia.
  unfold Number.numer, Number.denom.
  apply Z.div_pos; [|lia].
  assert (0 < 2 ^ Z.max (- e) 0) by (apply Z.pow_pos_nonneg; lia).
  assert (0 ≤ 2 ^ Z.max e 0) by (apply Z.pow_nonneg; lia).
  assert (0 ≤ 10 ^ Z.of_nat f) by (apply Z.pow_nonneg; lia).
  nia.
Qed.

(** [scaled r f] is nearest to [|r| * 10^f]. *)
Lemma scaled_nearest s m e f :
  let n := scaled (S754_finite s m e) f in
  2 * Number.numer m e * 10 ^ Z.of_nat f - Number.denom e
  < 2 * n * Number.denom e
  ≤ 2 * Number.numer m e * 10 ^ Z.of_nat f + Number.denom e.
Proof.
  simpl. set (A := Number.numer m e * 10 ^ Z.of_nat f).
  set (D := Number.denom e).
  assert (0 < D) by (apply Z.pow_pos_nonneg; lia).
  pose proof (Z.div_mod (2 * A + D) (2 * D) ltac:(lia)) as Hdm.
  pose proof (Z.mod_pos_bound (2 * A + D) (2 * D) ltac:(lia)) as Hm.
  replace (2 * Number.numer m e * 10 ^ Z.of_nat f) with (2 * A)
    by (subst A; lia).
  nia.
Qed.

(** X3. When [r = round(x * 10^p) / 10^p] is zero or finite with a
    magnitude below 10^21 and [p] is at most 100, [format(x, p)] is in
    fixed-point notation: a minus sign exactly when [r] is a negative
    Number other than zero, one or more digits, and, unless the digit
    count [f] is 0, a point and [f] digits, where [f] is at least [p]
    (the precision is a floor). *)
Theorem format_fixed_notation x p :
  fixed_range (rounded x p) = true → (p ≤ 100)%nat →
  ∃ f int frac,
    format (VNum x) p
    = Normal ((if negative (rounded x p) then js "-" else [])
              ++ int ++ (if (f =? 0)%nat then [] else js "." ++ frac))
    ∧ (p ≤ f)%nat ∧ length frac = f ∧ int ≠ []
    ∧ Forall (λ c, is_digit c = true) (int ++ frac).
Proof.
  intros Hr Hp. set (r := rounded x p) in *.
  pose proof (format_len_bounds r p) as [Hlo Hhi].
  set (f := format_len r p) in *.
  destruct (fixed_digits_parts (scaled r f) f)
    as (int & frac & E & Hint & Hfrac & k & Hms).
  exists f, int, frac. rewrite format_unfold. fold r. fold f.
  rewrite toFixed_fixed_range by (done || lia). rewrite E.
  repeat split; try done.
  rewrite Hms. apply Forall_app. split.
  - apply Forall_forall. by intros c [-> _]%elem_of_replicate.
  - apply Forall_is_digit_digits.
Qed.

Lemma format_fixed_notation_witness :
  ∃ f int frac,
    format (VNum (Number.of_decimal (-126) (-2))) 1
    = Normal ((if negative (rounded (Number.of_decimal (-126) (-2)) 1)
               then js "-" else [])
              ++ int ++ (if (f =? 0)%nat then [] else js "." ++ frac))
    ∧ (1 ≤ f)%nat ∧ length frac = f ∧ int ≠ []
    ∧ Forall (λ c, is_digit c = true) (int ++ frac).
Proof.
  apply (format_fixed_notation (Number.of_decimal (-126) (-2)) 1).
  - vm_compute. reflexivity.
  - lia.
Defined.

(** X4. When [r = round(x * 10^p) / 10^p] is finite with a magnitude
    below 10^21 and [p] is at most 100, the digits of [format(x, p)], read
    as an integer [n] over [10^f] for the [f] digits after the point,
    differ from the magnitude of [r] by at most half a unit of the last
    digit; the string has the sign of [r]. *)
Theorem format_half_unit x p s m e :
  rounded x p = S754_finite s m e → Number.ge_1e21 m e = false →
  (p ≤ 100)%nat →
  ∃ f int frac n,
    format (VNum x) p
    = Normal ((if s then js "-" else [])
              ++ int ++ (if (f =? 0)%nat then [] else js "." ++ frac))
    ∧ length frac = f
    ∧ digits_value 10 0 (int ++ frac) = Some n
    ∧ 2 * Z.abs (n * Number.denom e - Number.numer m e * 10 ^ Z.of_nat f)
      ≤ Number.denom e.
Proof.
  intros Er Hlt Hp. rewrite format_unfold, Er.
  set (r := S754_finite s m e).
  pose proof (format_len_bounds r p) as [Hlo Hhi].
  set (f := format_len r p) in *.
  destruct (fixed_digits_parts (scaled r f) f)
    as (int & frac & E & Hint & Hfrac & k & Hms).
  exists f, int, frac, (scaled r f).
  rewrite toFixed_fixed_range; [|by simpl; rewrite Hlt|lia].
  rewrite E. split; [by destruct s|]. split; [done|]. split.
  - rewrite Hms, digits_value_zeros, Z.mul_0_r.
    apply decimal_denotes, scaled_nonneg.
  - pose proof (scaled_nearest s m e f) as H. cbv zeta in H. fold r in H.
    lia.
Qed.

Lemma format_half_unit_witness :
  ∃ f int frac n,
    format (VNum (Number.of_decimal 12345 (-3))) 1
    = Normal ([] ++ int ++ (if (f =? 0)%nat then [] else js "." ++ frac))
    ∧ length frac = f
    ∧ digits_value 10 0 (int ++ frac) = Some n
    ∧ 2 * Z.abs (n * Number.denom (-49)
                 - Number.numer 6924284427082138 (-49) * 10 ^ Z.of_nat f)
      ≤ Number.denom (-49).
Proof.
  apply (format_half_unit (Number.of_decimal 12345 (-3)) 1 false
           6924284427082138 (-49)).
  - vm_compute. reflexivity.
  - vm_compute. reflexivity.
  - lia.
Defined.

(** X5. [Math.round] of a finite Number [x = (-1)^s * m * 2^e] with a
    fractional part ([e < 0]) is the integer [z] with
    [z - 1/2 <= x < z + 1/2]; when [z] is 0 the result is the zero with the
    sign of [x]. *)
Theorem round_nearest_integer (s : bool) (m : positive) (e : Z) :
  e < 0 →
  ∃ z, (2 * z - 1) * 2 ^ (- e) ≤ 2 * (if s then Z.neg m else Z.pos m)
       ∧ 2 * (if s then Z.neg m else Z.pos m) < (2 * z + 1) * 2 ^ (- e)
       ∧ Number.round (S754_finite s m e)
         = if z =? 0 then S754_zero s else Number.of_Z z.
Proof.
  intros He. set (sm := if s then Z.neg m else Z.pos m).
  exists ((2 * sm + 2 ^ (- e)) / 2 ^ (1 - e)).
  assert (0 < 2 ^ (- e)) as Hpos by (apply Z.pow_pos_nonneg; lia).
  assert (2 ^ (1 - e) = 2 * 2 ^ (- e)) as E.
  { replace (1 - e) with (Z.succ (- e)) by lia. apply Z.pow_succ_r. lia. }
  pose proof (Z.div_mod (2 * sm + 2 ^ (- e)) (2 ^ (1 - e)) ltac:(lia)) as Hdm.
  pose proof (Z.mod_pos_bound (2 * sm + 2 ^ (- e)) (2 ^ (1 - e)) ltac:(lia))
    as Hm.
  rewrite E in *.
  split; [nia|]. split; [nia|].
  unfold Number.round. destruct (Z.leb_spec 0 e); [lia|]. fold sm.
  by rewrite E.
Qed.

Lemma round_nearest_integer_witness :
  ∃ z, (2 * z - 1) * 2 ^ (- (-2)) ≤ 2 * Z.neg 1
       ∧ 2 * Z.neg 1 < (2 * z + 1) * 2 ^ (- (-2))
       ∧ Number.round (S754_finite true 1 (-2))
         = if z =? 0 then S754_zero true else Number.of_Z z.
Proof. apply (round_nearest_integer true 1 (-2)). lia. Defined.

(** ** [split] and [trim] *)

Lemma split_nonempty sep s : split sep s ≠ [].
Proof.
  destruct s as [|c s]; simpl; [done|].
  destruct (c =? sep)%N; [done|]. by destruct (split sep s).
Qed.

Lemma split_cons sep c s :
  split sep (c :: s)
  = if (c =? sep)%N then [] :: split sep s
    else match split sep s with
         | piece :: pieces => (c :: piece) :: pieces
         | [] => [[c]]
         end.
Proof. reflexivity. Qed.

(** X6. For every string [s] and separator [sep], the pieces of
    [s.split(sep)] joined with [sep] are [s] again, no piece contains the
    separator, and there is one piece more than [s] has separators (so
    one piece, the empty one, for the empty string). *)
Theorem split_join sep s :
  join sep (split sep s) = s
  ∧ Forall (λ piece, sep ∉ piece) (split sep s)
  ∧ length (split sep s) = S (occurrences sep s).
Proof.
  induction s as [|c s (IHj & IHf & IHl)].
  - repeat split. repeat constructor. apply not_elem_of_nil.
  - rewrite split_cons. unfold occurrences in *. rewrite filter_cons.
    pose proof (split_nonempty sep s) as Hne.
    destruct (N.eqb_spec c sep) as [->|Hc].
    + rewrite decide_True by done.
      split; [|split].
      * destruct (split sep s) as [|q qs]; [done|].
        change (join sep ([] :: q :: qs)) with (sep :: join sep (q :: qs)).
        by rewrite IHj.
      * constructor; [apply not_elem_of_nil|done].
      * simpl. by rewrite IHl.
    + rewrite decide_False by done.
      destruct (split sep s) as [|q qs]; [done|].
      apply Forall_cons in IHf as [Hq Hqs].
      split; [|split].
      * destruct qs as [|q' qs]; simpl in *; by rewrite <- IHj.
      * constructor; [|done]. by apply not_elem_of_cons.
      * done.
Qed.

Lemma trim_start_spec s :
  ∃ l, s = l ++ trim_start s
       ∧ Forall (λ c, is_space c = true) l
       ∧ ∀ c, head (trim_start s) = Some c → is_space c = false.
Proof.
  induction s as [|c s (l & E & Hl & Hh)].
  - exists []. repeat split; [constructor|done].
  - simpl. destruct (is_space c) eqn:Ec.
    + exists (c :: l). split; [by rewrite <- app_comm_cons, <- E|].
      split; [by constructor|done].
    + exists []. split; [done|]. split; [constructor|].
      by intros ? [= <-].
Qed.

Lemma trim_start_id s :
  (∀ c, head s = Some c → is_space c = false) → trim_start s = s.
Proof.
  destruct s as [|c s]; [done|]. intros H. simpl. by rewrite (H c).
Qed.

Lemma head_of_rev {A} (l : list A) : head (rev l) = last l.
Proof.
  induction l as [|a l IH] using rev_ind; [done|].
  by rewrite rev_app_distr, last_snoc.
Qed.

Lemma last_of_rev {A} (l : list A) : last (rev l) = head l.
Proof. by rewrite <- head_of_rev, rev_involutive. Qed.

(** X7. For every string [s], [s.trim()] is [s] without a run of white
    space at its beginning and one at its end: what is left neither
    begins nor ends with white space. *)
Theorem trim_spec s :
  ∃ l r, s = l ++ trim s ++ r
         ∧ Forall (λ c, is_space c = true) l
         ∧ Forall (λ c, is_space c = true) r
         ∧ (∀ c, head (trim s) = Some c → is_space c = false)
         ∧ (∀ c, last (trim s) = Some c → is_space c = false).
Proof.
  unfold trim.
  destruct (trim_start_spec s) as (l & E & Hl & Hh).
  destruct (trim_start_spec (rev (trim_start s))) as (r & E' & Hr & Hh').
  set (t := trim_start (rev (trim_start s))) in *.
  assert (trim_start s = rev t ++ rev r) as Et.
  { rewrite <- rev_app_distr, <- E'. by rewrite rev_involutive. }
  exists l, (rev r). split; [by rewrite <- Et|].
  split; [done|]. split; [by apply Forall_rev|]. split.
  - intros c Hc. destruct (rev t) as [|c' t'] eqn:Ert; [done|].
    apply Hh. rewrite Et. simpl in *. done.
  - intros c Hc. apply Hh'. by rewrite <- last_of_rev.
Qed.

Lemma trim_start_spaces ws s :
  Forall (λ c, is_space c = true) ws → trim_start (ws ++ s) = trim_start s.
Proof. induction 1 as [|c ws Hc _ IH]; [done|]. simpl. by rewrite Hc. Qed.

(** White space before a string without any is all that [trim] takes
    away. *)
Lemma trim_spaces ws s :
  Forall (λ c, is_space c = true) ws →
  Forall (λ c, is_space c = false) s →
  trim (ws ++ s) = s.
Proof.
  intros Hws Hs. unfold trim. rewrite trim_start_spaces by done.
  rewrite (trim_start_id s).
  2:{ intros c Hc. rewrite Forall_forall in Hs. apply Hs.
      destruct s; simplify_eq/=. left. }
  rewrite trim_start_id; [apply rev_involutive|].
  intros c Hc. rewrite Forall_forall in Hs. apply Hs.
  rewrite head_of_rev in Hc. apply last_Some in Hc as [l ->].
  apply elem_of_app. right. left.
Qed.

(** ** [decodeURIComponent] *)

Lemma decode_plain s : 37%N ∉ s → decodeURIComponent s = Normal s.
Proof.
  unfold decodeURIComponent.
  induction s as [|c s IH]; [done|]. intros [Hc Hs]%not_elem_of_cons.
  cbn [decode]. destruct (N.eqb_spec c 37) as [->|_]; [done|].
  by rewrite IH.
Qed.

(** Every throw of the decoding loop is a URIError. *)
Lemma decode_throws pending s err :
  decode pending s = Throw err → err = URIError.
Proof.
  remember (length s) as n eqn:Hn. revert pending s Hn.
  induction n as [n IH] using lt_wf_ind. intros pending s ->.
  destruct s as [|c s]; cbn [decode].
  - destruct pending; congruence.
  - destruct (c =? 37)%N.
    + destruct s as [|h [|l s]]; try congruence.
      destruct (hex_octet h l) as [b|]; [|congruence].
      destruct pending as [[octets [|[|k]]]|].
      * apply (IH (length s)); simpl; lia.
      * destruct (utf8_code_point _); [|congruence].
        destruct (decode None s) eqn:E; simpl; [done|].
        intros [= <-]. apply (IH (length s)) in E; simpl; [done|lia|done].
      * apply (IH (length s)); simpl; lia.
      * destruct (utf8_length b) as [[|[|k]]|]; try congruence.
        -- apply (IH (length s)); simpl; lia.
        -- destruct (decode None s) eqn:E; simpl; [done|].
           intros [= <-]. apply (IH (length s)) in E; simpl; [done|lia|done].
        -- apply (IH (length s)); simpl; lia.
    + destruct pending; [congruence|].
      destruct (decode None s) eqn:E; simpl; [done|].
      intros [= <-]. apply (IH (length s)) in E; simpl; [done|lia|done].
Qed.

Lemma bind_Normal_inv {A B} (c : completion A) (f : A → B) b :
  (a ← c; Normal (f a)) = Normal b → ∃ a, c = Normal a ∧ b = f a.
Proof. destruct c as [a|]; simpl; [|done]. intros [= <-]. eauto. Qed.

(** Decoding goes from left to right: after a well-formed beginning the
    rest is decoded on its own. *)
Lemma decode_app pending a a' b :
  decode pending a = Normal a' →
  decode pending (a ++ b) = r ← decode None b; Normal (a' ++ r).
Proof.
  remember (length a) as n eqn:Hn. revert pending a a' Hn.
  induction n as [n IH] using lt_wf_ind. intros pending a a' ->.
  assert (∀ p s s', (length s < length a)%nat → decode p s = Normal s' →
            decode p (s ++ b) = r ← decode None b; Normal (s' ++ r)) as IH'.
  { intros p s s' Hlt. by apply (IH (length s)). }
  clear IH.
  assert (∀ (pre : jsstring) s s', (length s < length a)%nat →
            (r ← decode None s; Normal (pre ++ r)) = Normal s' →
            (r ← decode None (s ++ b); Normal (pre ++ r))
            = r ← decode None b; Normal (s' ++ r)) as IHb.
  { intros pre s s' Hlt (r0 & E & ->)%bind_Normal_inv.
    rewrite (IH' _ _ _ Hlt E). destruct (decode None b); simpl; [|done].
    by rewrite app_assoc. }
  destruct a as [|c a]; cbn [decode app].
  - destruct pending; [done|]. intros [= <-]. by destruct (decode None b).
  - destruct (c =? 37)%N.
    + destruct a as [|h [|l a]]; try done. cbn [app].
      destruct (hex_octet h l) as [o|]; [|done].
      destruct pending as [[octets [|[|k]]]|].
      * apply IH'; simpl; lia.
      * destruct (utf8_code_point _); [|done].
        apply IHb; simpl; lia.
      * apply IH'; simpl; lia.
      * destruct (utf8_length o) as [[|[|k]]|]; try done.
        -- apply IH'; simpl; lia.
        -- apply (IHb [o]); simpl; lia.
        -- apply IH'; simpl; lia.
    + destruct pending; [done|]. apply (IHb [c]); simpl; lia.
Qed.

(** X8. When [decodeURIComponent(a)] returns [a'], then
    [decodeURIComponent(a + b)] is [a'] followed by what
    [decodeURIComponent(b)] returns, and throws when that throws; and
    whatever [decodeURIComponent] throws is a URIError. *)
Theorem decodeURIComponent_continues a a' b :
  decodeURIComponent a = Normal a' →
  decodeURIComponent (a ++ b)
  = (b' ← decodeURIComponent b; Normal (a' ++ b'))
  ∧ ∀ err, decodeURIComponent (a ++ b) = Throw err → err = URIError.
Proof.
  unfold decodeURIComponent. intros Ha. split.
  - apply decode_app, Ha.
  - intros err. apply decode_throws.
Qed.

Lemma decodeURIComponent_continues_witness :
  decodeURIComponent (js "%41" ++ js "b%2")
  = (b' ← decodeURIComponent (js "b%2"); Normal (js "A" ++ b'))
  ∧ ∀ err, decodeURIComponent (js "%41" ++ js "b%2") = Throw err →
           err = URIError.
Proof.
  apply (decodeURIComponent_continues (js "%41") (js "A") (js "b%2")).
  vm_compute. reflexivity.
Defined.

Lemma hex_octet_escape b :
  (b < 256)%N →
  hex_octet (hex_digit (b / 16)) (hex_digit (b mod 16)) = Some b.
Proof.
  intros Hb.
  assert (forallb (λ n, let b := N.of_nat n in
            bool_decide (hex_octet (hex_digit (b / 16)) (hex_digit (b mod 16))
                         = Some b)) (seq 0 256) = true) as H
    by (vm_compute; reflexivity).
  rewrite forallb_forall in H.
  specialize (H (N.to_nat b)). rewrite N2Nat.id in H.
  cbv zeta in H. eapply bool_decide_eq_true_1, H, in_seq. lia.
Qed.

(** One escape sequence in the decoding loop. *)
Lemma decode_escape pending b rest :
  (b < 256)%N →
  decode pending (escape b ++ rest)
  = match pending with
    | None =>
        match utf8_length b with
        | None => Throw URIError
        | Some 1%nat => r ← decode None rest; Normal (b :: r)
        | Some n => decode (Some ([b], Nat.pred n)) rest
        end
    | Some (octets, 1%nat) =>
        match utf8_code_point (octets ++ [b]) with
        | None => Throw URIError
        | Some v => r ← decode None rest; Normal (utf16 v ++ r)
        end
    | Some (octets, n) => decode (Some (octets ++ [b], Nat.pred n)) rest
    end.
Proof.
  intros Hb. unfold escape. cbn [app decode].
  change (37 =? 37)%N with true. cbv iota.
  by rewrite (hex_octet_escape b Hb).
Qed.

(** Comparisons of octets with constants. *)
Ltac octets :=
  repeat match goal with
  | |- context [(?a <? ?b)%N] => destruct (N.ltb_spec a b); try lia
  | |- context [(?a <=? ?b)%N] => destruct (N.leb_spec a b); try lia
  end.

Lemma utf8_length_1 b : (b < 128)%N → utf8_length b = Some 1%nat.
Proof. intros. unfold utf8_length. by octets. Qed.

Lemma utf8_length_2 b : (192 ≤ b < 224)%N → utf8_length b = Some 2%nat.
Proof. intros. unfold utf8_length. by octets. Qed.

Lemma utf8_length_3 b : (224 ≤ b < 240)%N → utf8_length b = Some 3%nat.
Proof. intros. unfold utf8_length. by octets. Qed.

Lemma utf8_length_4 b : (240 ≤ b < 248)%N → utf8_length b = Some 4%nat.
Proof. intros. unfold utf8_length. by octets. Qed.

Lemma continuation_octet x :
  ((128 <=? 128 + x mod 64) && (128 + x mod 64 <? 192))%N = true.
Proof.
  pose proof (N.mod_upper_bound x 64 ltac:(done)).
  pose proof (N.le_0_l (x mod 64)).
  apply andb_true_intro. split; [apply N.leb_le|apply N.ltb_lt]; lia.
Qed.

Lemma div_mod_64 x : (x / 64 * 64 + x mod 64 = x)%N.
Proof. pose proof (N.div_mod x 64 ltac:(done)). lia. Qed.

Lemma add_sub_l a b : (a + b - a = b)%N.
Proof. lia. Qed.

Lemma utf8_code_point_2 v :
  (128 ≤ v < 2048)%N →
  utf8_code_point [192 + v / 64; 128 + v mod 64]%N = Some v.
Proof.
  intros Hv. unfold utf8_code_point. cbn [forallb length fold_left].
  rewrite continuation_octet. cbn [andb].
  rewrite !add_sub_l, div_mod_64.
  by octets.
Qed.

Lemma utf8_code_point_3 v :
  (2048 ≤ v < 65536)%N → scalar v = true →
  utf8_code_point [224 + v / 4096; 128 + (v / 64) mod 64; 128 + v mod 64]%N
  = Some v.
Proof.
  intros Hv Hs. unfold utf8_code_point. cbn [forallb length fold_left].
  rewrite !continuation_octet. cbn [andb].
  assert (v / 4096 = v / 64 / 64)%N as E
    by (by rewrite N.Div0.div_div).
  rewrite !add_sub_l, E, !div_mod_64.
  unfold scalar in Hs. apply andb_prop in Hs as [_ Hs]. rewrite Hs.
  by octets.
Qed.

Lemma utf8_code_point_4 v :
  (65536 ≤ v)%N → scalar v = true →
  utf8_code_point [240 + v / 262144; 128 + (v / 4096) mod 64;
                   128 + (v / 64) mod 64; 128 + v mod 64]%N
  = Some v.
Proof.
  intros Hv Hs. unfold utf8_code_point. cbn [forallb length fold_left].
  rewrite !continuation_octet. cbn [andb].
  assert (v / 4096 = v / 64 / 64)%N as E1 by (by rewrite N.Div0.div_div).
  assert (v / 262144 = v / 64 / 64 / 64)%N as E2
    by (by rewrite !N.Div0.div_div).
  rewrite !add_sub_l, E2, E1, !div_mod_64.
  unfold scalar in Hs. apply andb_prop in Hs as [Hs1 Hs2]. rewrite Hs1, Hs2.
  by octets.
Qed.

Lemma div_bounds v d lo hi :
  (d ≠ 0)%N → (lo * d ≤ v)%N → (v < hi * d)%N → (lo ≤ v / d < hi)%N.
Proof.
  intros Hd Hlo Hhi. split.
  - apply N.div_le_lower_bound; [done|lia].
  - apply N.Div0.div_lt_upper_bound. lia.
Qed.

(** The escape sequences of the UTF-8 encoding of a code point decode to
    its UTF-16 code units. *)
Lemma decode_utf8 v rest :
  scalar v = true →
  decode None (flat_map escape (utf8 v) ++ rest)
  = r ← decode None rest; Normal (utf16 v ++ r).
Proof.
  intros Hs. pose proof Hs as Hs'. unfold scalar in Hs'.
  apply andb_prop in Hs' as [Hmax%N.leb_le _].
  unfold utf8.
  pose proof (N.mod_upper_bound v 64 ltac:(done)).
  pose proof (N.mod_upper_bound (v / 64) 64 ltac:(done)).
  pose proof (N.mod_upper_bound (v / 4096) 64 ltac:(done)).
  destruct (N.ltb_spec v 128) as [V1|V1];
    [|destruct (N.ltb_spec v 2048) as [V2|V2];
      [|destruct (N.ltb_spec v 65536) as [V3|V3]]];
    cbn [flat_map]; rewrite ?app_nil_r, <- ?app_assoc.
  - rewrite decode_escape by lia. rewrite utf8_length_1 by done.
    unfold utf16. by destruct (N.ltb_spec v 65536); [|lia].
  - pose proof (div_bounds v 64 2 32 ltac:(done) ltac:(lia) ltac:(lia)).
    rewrite decode_escape by lia. rewrite utf8_length_2 by lia.
    cbn [Nat.pred]. rewrite decode_escape by lia. cbn [app].
    by rewrite utf8_code_point_2.
  - pose proof (div_bounds v 4096 0 16 ltac:(done) ltac:(lia) ltac:(lia)).
    rewrite decode_escape by lia. rewrite utf8_length_3 by lia.
    cbn [Nat.pred]. rewrite decode_escape by lia.
    rewrite decode_escape by lia. cbn [app].
    by rewrite utf8_code_point_3.
  - pose proof (div_bounds v 262144 0 5 ltac:(done) ltac:(lia) ltac:(lia)).
    rewrite decode_escape by lia. rewrite utf8_length_4 by lia.
    cbn [Nat.pred]. rewrite decode_escape by lia. cbn [Nat.pred].
    rewrite decode_escape by lia.
    rewrite decode_escape by lia. cbn [app].
    by rewrite utf8_code_point_4.
Qed.

Lemma unreserved_plain v : unreserved v = true → (v ≠ 37 ∧ v < 128)%N.
Proof.
  unfold unreserved. intros H.
  apply orb_prop in H as [H|H%bool_decide_eq_true].
  - repeat (apply orb_prop in H as [H|H]);
      apply andb_prop in H as [?%N.leb_le ?%N.leb_le]; lia.
  - repeat (apply elem_of_cons in H as [->|H]); try done.
    by apply elem_of_nil in H.
Qed.

(** X9. [decodeURIComponent] undoes percent-encoding: for every string
    given by code points that are no surrogates and at most U+10FFFF, the
    decoding of its percent-encoding (UTF-8 octets as [%XX], the
    unreserved characters as they are) returns the UTF-16 code units of
    the string. *)
Theorem decodeURIComponent_percent_encode vs :
  Forall (λ v, scalar v = true) vs →
  decodeURIComponent (percent_encode vs) = Normal (flat_map utf16 vs).
Proof.
  unfold decodeURIComponent.
  induction 1 as [|v vs Hv _ IH]; [done|].
  unfold percent_encode in *. cbn [flat_map].
  destruct (unreserved v) eqn:Hu.
  - apply unreserved_plain in Hu as [H37 H128].
    cbn [app decode]. destruct (N.eqb_spec v 37); [done|].
    rewrite IH. unfold utf16. by destruct (N.ltb_spec v 65536); [|lia].
  - by rewrite decode_utf8, IH.
Qed.

Lemma decodeURIComponent_percent_encode_witness :
  decodeURIComponent (percent_encode [97; 32; 233; 8364; 128512]%N)
  = Normal (flat_map utf16 [97; 32; 233; 8364; 128512]%N)
  ∧ percent_encode [97; 32; 233; 8364; 128512]%N
    = js "a%20%C3%A9%E2%82%AC%F0%9F%98%80"
  ∧ flat_map utf16 [97; 32; 233; 8364; 128512]%N
    = [97; 32; 233; 8364; 55357; 56832]%N.
Proof.
  split; [|split; vm_compute; reflexivity].
  apply (decodeURIComponent_percent_encode [97; 32; 233; 8364; 128512]%N).
  repeat constructor.
Defined.

(** ** The cookie reader *)

Lemma name_value_pair n v :
  61%N ∉ n → name_value (n ++ 61%N :: v) = Some (n, v).
Proof.
  induction n as [|c n IH]; intros Hn; simpl.
  - done.
  - apply not_elem_of_cons in Hn as [Hc Hn].
    destruct (N.eqb_spec c 61); [done|]. by rewrite IH.
Qed.

Lemma well_formed_text p :
  well_formed p = true →
  (61%N ∉ p.1) ∧ (59%N ∉ pair_text p)
  ∧ Forall (λ c, is_space c = false) (pair_text p).
Proof.
  unfold well_formed, pair_text, cookie_octet.
  intros [Hn Hv]%andb_prop.
  rewrite forallb_forall in Hn. rewrite forallb_forall in Hv.
  assert (∀ c, c ∈ p.1 → (c ≠ 59%N) ∧ (is_space c = false) ∧ (c ≠ 61%N))
    as Hn'.
  { intros c Hc%list_elem_of_In%Hn.
    apply andb_prop in Hc as [[H1 H2]%andb_prop H3].
    apply negb_true_iff in H1, H2, H3.
    apply N.eqb_neq in H1, H3. done. }
  assert (∀ c, c ∈ p.2 → (c ≠ 59%N) ∧ (is_space c = false)) as Hv'.
  { intros c Hc%list_elem_of_In%Hv.
    apply andb_prop in Hc as [H1 H2].
    apply negb_true_iff in H1, H2. apply N.eqb_neq in H1. done. }
  split; [|split].
  - intros H. by destruct (Hn' _ H) as (_ & _ & ?).
  - intros [H|[H|H]%elem_of_cons]%elem_of_app.
    + by destruct (Hn' _ H) as (? & _).
    + done.
    + by destruct (Hv' _ H) as (? & _).
  - apply Forall_forall. intros c [H|[->|H]%elem_of_cons]%elem_of_app.
    + by destruct (Hn' _ H) as (_ & ? & _).
    + done.
    + by destruct (Hv' _ H) as (_ & ?).
Qed.

(** The pairs read off the cookie string of a jar are the jar. *)
Lemma cookie_pairs_string ws jar :
  Forall (λ c, is_space c = true) ws → 59%N ∉ ws →
  jar ≠ [] → Forall (λ p, well_formed p = true) jar →
  omap name_value (trim <$> split 59%N (ws ++ cookie_string jar)) = jar.
Proof.
  intros Hws Hsep Hne Hjar. revert ws Hws Hsep Hne.
  induction Hjar as [|p jar Hp Hjar IH]; intros ws Hws Hsep Hne; [done|].
  destruct (well_formed_text p Hp) as (Hname & Hsemi & Hspace).
  destruct jar as [|q jar].
  - cbn [cookie_string]. rewrite split_no_sep.
    2:{ rewrite not_elem_of_app. done. }
    cbn [fmap list_fmap omap list_omap].
    rewrite trim_spaces by done. unfold pair_text.
    rewrite name_value_pair by done. by destruct p.
  - change (cookie_string (p :: q :: jar))
      with (pair_text p ++ js "; " ++ cookie_string (q :: jar)).
    change (js "; ") with ([59%N] ++ [32%N]).
    rewrite <- !app_assoc. rewrite (app_assoc ws). cbn [app].
    rewrite split_app_sep.
    2:{ rewrite not_elem_of_app. done. }
    cbn [fmap list_fmap omap list_omap].
    rewrite trim_spaces by done. unfold pair_text at 1.
    rewrite name_value_pair by done.
    change (32%N :: cookie_string (q :: jar))
      with ([32%N] ++ cookie_string (q :: jar)).
    rewrite (IH [32%N]);
      [by destruct p| |by intros [=]%list_elem_of_singleton|done].
    by repeat constructor.
Qed.

(** X10. For every cookie jar whose names and values contain no
    semicolon and no white space (and the names no [=]), [getCookie] on
    the cookie string of the jar (the cookies as [name=value], separated
    by "; ") returns the decoded value of the first cookie of the jar named
    [csrftoken], wherever it stands, and [null] when there is none. *)
Theorem getCookie_of_jar jar :
  Forall (λ p, well_formed p = true) jar →
  getCookie (cookie_string jar)
  = match first_named (js "csrftoken") jar with
    | Some v => VStr <$> decodeURIComponent v
    | None => Normal VNull
    end.
Proof.
  intros Hjar. rewrite getCookie_refines. unfold getCookie_spec, cookie_pairs.
  destruct (decide (jar = [])) as [->|Hne]; [done|].
  pose proof (cookie_pairs_string [] jar) as H. cbn [app] in H.
  rewrite H by (done || constructor || apply not_elem_of_nil). done.
Qed.

Lemma getCookie_of_jar_witness :
  getCookie (js "sessionid=4f2a; csrftoken=a%20b=c; csrftoken=later")
  = Normal (VStr (js "a b=c")).
Proof.
  apply (getCookie_of_jar
           [ (js "sessionid", js "4f2a"); (js "csrftoken", js "a%20b=c");
             (js "csrftoken", js "later") ]).
  repeat constructor.
Defined.

(** X11. For every cookie string whose first pair named [csrftoken] has
    a value [v] without a percent sign, [getCookie] returns [v] as it
    stands. *)
Theorem getCookie_verbatim c v :
  first_named (js "csrftoken") (cookie_pairs c) = Some v → 37%N ∉ v →
  getCookie c = Normal (VStr v).
Proof.
  intros Hv Hp. rewrite getCookie_refines. unfold getCookie_spec.
  by rewrite Hv, decode_plain.
Qed.

Lemma getCookie_verbatim_witness :
  getCookie (js " other=x;csrftoken=abc+123== ")
  = Normal (VStr (js "abc+123==")).
Proof.
  apply (getCookie_verbatim (js " other=x;csrftoken=abc+123== ")
           (js "abc+123==")).
  - vm_compute. reflexivity.
  - intros H. vm_compute in H.
    repeat (apply elem_of_cons in H as [H|H]; [discriminate H|]).
    by apply elem_of_nil in H.
Defined.

Lemma split_app sep a b :
  split sep (a ++ sep :: b) = split sep a ++ split sep b.
Proof.
  induction a as [|c a IH]; simpl.
  - by rewrite N.eqb_refl.
  - destruct (c =? sep)%N; [by rewrite IH|].
    rewrite IH. pose proof (split_nonempty sep a).
    by destruct (split sep a).
Qed.

Lemma cookie_pairs_app a b :
  cookie_pairs (a ++ 59%N :: b) = cookie_pairs a ++ cookie_pairs b.
Proof.
  unfold cookie_pairs. by rewrite split_app, fmap_app, omap_app.
Qed.

Lemma first_named_app name l1 l2 :
  first_named name (l1 ++ l2)
  = match first_named name l1 with
    | Some v => Some v
    | None => first_named name l2
    end.
Proof.
  unfold first_named. induction l1 as [|p l1 IH]; [done|].
  cbn [app List.find]. by case_bool_decide.
Qed.

(** X12. For all cookie strings [a] and [b], [getCookie] on [a], a
    semicolon and [b] is what it is on [a] alone, unless that is [null]
    ([a] has no pair named [csrftoken]), in which case it is what it is
    on [b]: the search stops at the first match, and nothing after it, well
    formed or not, matters. *)
Theorem getCookie_semicolon a b :
  getCookie (a ++ 59%N :: b)
  = match getCookie a with
    | Normal VNull => getCookie b
    | found => found
    end.
Proof.
  rewrite !getCookie_refines. unfold getCookie_spec.
  rewrite cookie_pairs_app, first_named_app.
  destruct (first_named _ (cookie_pairs a)) as [v|]; [|done].
  by destruct (decodeURIComponent v).
Qed.

(** A percent sign at the end is never decoded. *)
Lemma decode_trailing_percent pending s :
  decode pending (s ++ [37%N]) = Throw URIError.
Proof.
  remember (length s) as n eqn:Hn. revert pending s Hn.
  induction n as [n IH] using lt_wf_ind. intros pending s ->.
  assert (∀ p s', (length s' < length s)%nat →
            decode p (s' ++ [37%N]) = Throw URIError) as IH'.
  { intros p s' Hlt. by apply (IH (length s')). }
  clear IH.
  destruct s as [|c s]; cbn [decode app].
  - done.
  - destruct (N.eqb_spec c 37) as [->|Hc].
    + destruct s as [|h [|l s]]; cbn [app]; [done| |].
      * change (hex_octet h 37%N) with
          (hi ← digit_value 16 h; lo ← digit_value 16 37%N;
           Some (Z.to_N (16 * hi + lo))).
        change (digit_value 16 37%N) with (@None Z).
        by destruct (digit_value 16 h).
      * destruct (hex_octet h l) as [o|]; [|done].
        destruct pending as [[octets [|[|k]]]|].
        -- apply IH'; simpl; lia.
        -- destruct (utf8_code_point _); [|done].
           rewrite IH' by (simpl; lia). done.
        -- apply IH'; simpl; lia.
        -- destruct (utf8_length o) as [[|[|k]]|]; try done.
           ++ apply IH'; simpl; lia.
           ++ rewrite IH' by (simpl; lia). done.
           ++ apply IH'; simpl; lia.
    + destruct pending; [done|]. rewrite IH' by (simpl; lia). done.
Qed.

(** X13. For every cookie string whose first pair named [csrftoken] has
    a value that ends in a percent sign, whatever comes before it,
    [getCookie] throws a URIError. *)
Theorem getCookie_dangling_percent c v :
  first_named (js "csrftoken") (cookie_pairs c) = Some (v ++ js "%") →
  getCookie c = Throw URIError.
Proof.
  intros Hv. rewrite getCookie_refines. unfold getCookie_spec.
  rewrite Hv. unfold decodeURIComponent.
  change (js "%") with [37%N]. by rewrite decode_trailing_percent.
Qed.

Lemma getCookie_dangling_percent_witness :
  getCookie (js "a=b; csrftoken=abc%20def%; c=d") = Throw URIError.
Proof.
  apply (getCookie_dangling_percent (js "a=b; csrftoken=abc%20def%; c=d")
           (js "abc%20def")).
  vm_compute. reflexivity.
Defined.

Lemma getCookie_loop_error pieces err :
  getCookie_loop pieces = Throw err → err = URIError.
Proof.
  induction pieces as [|c pieces IH]; [done|]. cbn [getCookie_loop].
  case_bool_decide; [|done].
  unfold decodeURIComponent.
  destruct (decode None _) eqn:E; [done|].
  intros [= <-]. by apply decode_throws in E.
Qed.

Lemma getCookie_error c err :
  getCookie c = Throw err → err = URIError.
Proof.
  unfold getCookie. case_match; [|done]. apply getCookie_loop_error.
Qed.

(** ** The response handler, block by block *)

(** Evaluation of the binds of the two monads. *)
Ltac run :=
  cbv beta iota delta [mbind M_bind completion_bind lift mret M_ret].

Lemma render_1_as : render_as render_1 payload_text_1 false.
Proof. done. Qed.

Lemma render_ec_as : render_as render_ec payload_text_ec false.
Proof.
  intros v st. unfold render_ec, payload_text_ec. rewrite bind_run.
  unfold lift. by destruct (ToNumber v).
Qed.

Lemma render_ORP_as : render_as render_ORP payload_text_0 true.
Proof. done. Qed.

(** A block throws what the test of the tag throws, does nothing without
    the tag, and runs on the payload with it. *)
Lemma show_reading_run r key id render text sets st :
  render_as render text sets →
  show_reading r key id render st
  = match tagged r key with
    | Throw err => (Throw err, st)
    | Normal None => (Normal (), st)
    | Normal (Some v) => block_run id text sets v st
    end.
Proof.
  intros Hrender. unfold show_reading, tagged, block_run, getElementById. run.
  destruct (get r key) as [f|err]; [|done].
  destruct (hasOwnProperty f (js "Ok")) as [[|]|err]; [|done|done].
  destruct (get f (js "Ok")) as [v|err]; [|done].
  rewrite Hrender.
  assert (dom (if sets then with_global (js "disp") v st else st) = dom st)
    as Hdom by by destruct sets.
  destruct (text v) as [t|err]; [|done].
  unfold set_textContent. by destruct (dom st !! id).
Qed.

Lemma page_eq st st' :
  dom st = dom st' → globals st = globals st' → cookie st = cookie st' →
  requests st = requests st' → st = st'.
Proof. destruct st, st'; simpl; by intros -> -> -> ->. Qed.

Lemma idempotent_seq (b k : M unit) :
  idempotent b → idempotent k → keeps b k → idempotent (b ;; k).
Proof.
  intros Hb Hk Hkeep st. rewrite (bind_run b _ st).
  pose proof (Hb st) as Hb1.
  destruct (b st) as [[[]|err] st1] eqn:E1; cbn [snd] in *.
  - pose proof (Hkeep st1 Hb1) as Hb2. pose proof (Hk st1) as Hk1.
    rewrite bind_run, Hb2. done.
  - by rewrite bind_run, Hb1.
Qed.

Lemma keeps_seq (b m k : M unit) :
  keeps b m → keeps b k → keeps b (m ;; k).
Proof.
  intros Hm Hk st Hb. rewrite bind_run.
  pose proof (Hm st Hb) as H1.
  destruct (m st) as [[[]|err] st1]; cbn [snd] in *; [|done].
  by apply Hk.
Qed.

(** What a block on a payload changes. *)
Lemma block_run_changes id text sets v st :
  let st' := (block_run id text sets v st).2 in
  cookie st' = cookie st ∧ requests st' = requests st
  ∧ (globals st' = globals st
     ∨ sets = true ∧ globals st' = <[js "disp" := v]> (globals st))
  ∧ (dom st' = dom st
     ∨ is_Some (dom st !! id)
       ∧ ∃ t, text v = Normal t ∧ dom st' = <[id := t]> (dom st)).
Proof.
  unfold block_run.
  destruct (text v) as [t|err]; [destruct (dom st !! id) eqn:E|];
    destruct sets; simpl; eauto 10.
Qed.

Lemma block_run_idempotent id text sets v st :
  block_run id text sets v (block_run id text sets v st).2
  = block_run id text sets v st.
Proof.
  unfold block_run. destruct (text v) as [t|err].
  - destruct (dom st !! id) as [old|] eqn:E.
    + destruct sets; simpl; rewrite lookup_insert_eq; f_equal;
        apply page_eq; simpl; by rewrite ?insert_insert_eq.
    + destruct sets; simpl; rewrite E; f_equal;
        apply page_eq; simpl; by rewrite ?insert_insert_eq.
  - destruct sets; simpl; f_equal; apply page_eq; simpl;
      by rewrite ?insert_insert_eq.
Qed.

Lemma show_reading_idempotent r key id render text sets :
  render_as render text sets → idempotent (show_reading r key id render).
Proof.
  intros Hr st. rewrite !(show_reading_run _ _ _ _ _ _ _ Hr).
  destruct (tagged r key) as [[v|]|err]; try done.
  apply block_run_idempotent.
Qed.

(** A block for another element leaves a block that has nothing to
    change with nothing to change. *)
Lemma show_reading_keeps r key id render text key' id' render' text' sets' :
  render_as render text false → render_as render' text' sets' → id ≠ id' →
  keeps (show_reading r key id render) (show_reading r key' id' render').
Proof.
  intros Hr Hr' Hne st. rewrite !(show_reading_run _ _ _ _ _ _ _ Hr).
  rewrite (show_reading_run _ _ _ _ _ _ _ Hr').
  destruct (tagged r key) as [[v|]|err]; try done.
  unfold block_run at 1 2. destruct (text v) as [t|err]; [|done].
  destruct (dom st !! id) as [old|] eqn:E; [|done].
  intros [= Heq].
  assert (dom st !! id = Some t) as Ht.
  { rewrite <- Heq at 1. simpl. by rewrite lookup_insert_eq. }
  set (st' := (match tagged r key' with
               | Normal (Some v') => block_run id' text' sets' v' st
               | Normal None => (Normal (), st)
               | Throw err => (Throw err, st)
               end).2).
  assert (dom st' !! id = Some t) as Ht'.
  { subst st'. destruct (tagged r key') as [[v'|]|err]; try done.
    destruct (block_run_changes id' text' sets' v' st)
      as (_ & _ & _ & [->|(_ & t' & _ & ->)]); [done|].
    by rewrite lookup_insert_ne. }
  rewrite Ht'. f_equal. apply page_eq; simpl; try done.
  by apply insert_id.
Qed.

(** X14. For every response [r] (of whatever shape) and every page, the
    response handler run a second time, on the page the first run left,
    completes as the first run did (returning, or throwing the same error)
    and leaves that page as it is: a repeated response changes nothing
    more. *)
Theorem handler_twice r st :
  response_handler r (response_handler r st).2 = response_handler r st.
Proof.
  revert st. change (idempotent (response_handler r)).
  unfold response_handler.
  repeat apply idempotent_seq;
    repeat apply keeps_seq;
    try (eapply show_reading_idempotent;
         first [apply render_1_as | apply render_ec_as | apply render_ORP_as]);
    try (eapply show_reading_keeps;
         [first [apply render_1_as | apply render_ec_as]
         |first [apply render_1_as | apply render_ec_as | apply render_ORP_as]
         |distinct]).
Qed.

Lemma show_reading_frame r key id render text sets st :
  render_as render text sets →
  block_frame id st (show_reading r key id render st).2.
Proof.
  intros Hr. rewrite (show_reading_run _ _ _ _ _ _ _ Hr).
  destruct (tagged r key) as [[v|]|err]; try by repeat split.
  destruct (block_run_changes id text sets v st) as (Hc & Hq & Hg & Hd).
  split; [done|]. split; [done|]. split.
  - intros name Hname. destruct Hg as [->|[_ ->]]; [done|].
    by rewrite lookup_insert_ne.
  - intros j Hj. destruct Hd as [Hd|(Hid & t & _ & Hd)]; rewrite Hd in *;
      [done|].
    destruct (decide (j = id)) as [->|Hne].
    + rewrite lookup_insert_eq. eauto.
    + by rewrite lookup_insert_ne in Hj.
Qed.

Lemma frame_refl st : handler_frame st st.
Proof. by repeat split. Qed.

Lemma frame_step id st st1 st2 :
  id ∈ display_ids → block_frame id st1 st2 → handler_frame st st1 →
  handler_frame st st2.
Proof.
  intros Hid (Hc2 & Hq2 & Hg2 & Hd2) (Hc1 & Hq1 & Hg1 & Hd1).
  split; [congruence|]. split; [congruence|]. split.
  - intros name Hname. rewrite Hg2, Hg1; done.
  - intros j Hj.
    destruct (decide (dom st2 !! j = dom st1 !! j)) as [E2|N2].
    + rewrite E2 in *. by apply Hd1.
    + destruct (Hd2 j N2) as (-> & S1 & S2).
      split; [done|]. split; [|done].
      destruct (decide (dom st1 !! id = dom st !! id)) as [E1|N1].
      * by rewrite <- E1.
      * by destruct (Hd1 id N1) as (_ & ? & _).
Qed.

Lemma frame_bind (m k : M unit) id st :
  id ∈ display_ids →
  (∀ st, block_frame id st (m st).2) →
  (∀ st0 st1, handler_frame st0 st1 → handler_frame st0 (k st1).2) →
  ∀ st0, handler_frame st0 st → handler_frame st0 ((m ;; k) st).2.
Proof.
  intros Hid Hm Hk st0 H0. rewrite bind_run.
  pose proof (frame_step id st0 st (m st).2 Hid (Hm st) H0) as H1.
  destruct (m st) as [[[]|err] st1]; cbn [snd] in *; [|done].
  by apply Hk.
Qed.

Lemma display_id_elem id : In id display_ids → id ∈ display_ids.
Proof. apply list_elem_of_In. Qed.

Lemma response_handler_frame r st :
  handler_frame st (response_handler r st).2.
Proof.
  unfold response_handler.
  apply (frame_bind _ _ (js "ph-reading"));
    [apply display_id_elem; simpl; tauto
    |intros; by eapply show_reading_frame, render_1_as
    | |apply frame_refl].
  intros st0 st1 H1.
  apply (frame_bind _ _ (js "temp-reading"));
    [apply display_id_elem; simpl; tauto
    |intros; by eapply show_reading_frame, render_1_as
    | |done].
  clear. intros st0 st1 H1.
  apply (frame_bind _ _ (js "ec-reading"));
    [apply display_id_elem; simpl; tauto
    |intros; by eapply show_reading_frame, render_ec_as
    | |done].
  clear. intros st0 st1 H1.
  eapply (frame_step (js "orp-reading"));
    [apply display_id_elem; simpl; tauto| |done].
  by eapply show_reading_frame, render_ORP_as.
Qed.

(** X15. For every response and every page, an element whose text
    differs after the response handler (whether it returned or threw) is
    one of ph-reading, temp-reading, ec-reading and orp-reading, and it
    existed before: the handler writes to no other element and creates
    none. *)
Theorem handler_writes_only_displays r st id :
  dom (response_handler r st).2 !! id ≠ dom st !! id →
  id ∈ display_ids
  ∧ is_Some (dom st !! id)
  ∧ is_Some (dom (response_handler r st).2 !! id).
Proof.
  intros H. destruct (response_handler_frame r st) as (_ & _ & _ & Hdom).
  by apply Hdom.
Qed.

Lemma handler_writes_only_displays_witness :
  js "ph-reading" ∈ display_ids
  ∧ is_Some (dom (example_page []) !! js "ph-reading")
  ∧ is_Some (dom (response_handler example_response (example_page [])).2
               !! js "ph-reading").
Proof.
  apply (handler_writes_only_displays example_response (example_page [])).
  vm_compute. discriminate.
Defined.

Lemma tagged_inspectable r key f :
  has_field r key f → inspectable f →
  tagged r key = Normal (own_property f (js "Ok")).
Proof.
  intros Hf Hi. unfold tagged. rewrite (get_field _ _ _ Hf). run.
  rewrite (hasOwnProperty_inspectable _ _ Hi).
  destruct (own_property f (js "Ok")) as [v|] eqn:E.
  - rewrite bool_decide_true by eauto.
    by rewrite (get_inspectable _ _ _ Hi E).
  - rewrite bool_decide_false; [done|]. by intros [? [=]].
Qed.

Lemma get_Normal r key f :
  get r key = Normal f → f = default VUndefined (own_property r key).
Proof. destruct r; simpl; congruence. Qed.

Lemma hasOwnProperty_true f key :
  hasOwnProperty f key = Normal true →
  f ≠ VUndefined ∧ is_Some (own_property f key).
Proof.
  unfold hasOwnProperty.
  destruct f; try done;
    (destruct (own_property _ (js "hasOwnProperty")); [done|]);
    intros [= H%bool_decide_eq_true]; done.
Qed.

(** The payload the tag carries, read off the response. *)
Lemma tagged_Some r key v :
  tagged r key = Normal (Some v) →
  ∃ f, own_property r key = Some f ∧ own_property f (js "Ok") = Some v.
Proof.
  unfold tagged. run.
  destruct (get r key) as [f|] eqn:Ef; [|done].
  apply get_Normal in Ef.
  destruct (hasOwnProperty f (js "Ok")) as [[|]|] eqn:Eh; [|done|done].
  apply hasOwnProperty_true in Eh as [Hu [v' Hv']].
  destruct (get f (js "Ok")) as [v''|] eqn:Ev; [|done].
  apply get_Normal in Ev. rewrite Hv' in Ev. simpl in Ev. subst v''.
  intros [= ->]. exists f. split; [|done].
  destruct (own_property r key); simpl in *; congruence.
Qed.

Lemma format_coerces v x p :
  ToNumber v = Normal x → format v p = format (VNum x) p.
Proof. intros H. unfold format. by rewrite H. Qed.

(** A block that does not set [disp] leaves the global variables alone. *)
Lemma show_reading_globals r key id render text st :
  render_as render text false →
  globals (show_reading r key id render st).2 = globals st.
Proof.
  intros Hr. rewrite (show_reading_run _ _ _ _ _ _ _ Hr).
  destruct (tagged r key) as [[v|]|err]; try done.
  by destruct (block_run_changes id text false v st)
    as (_ & _ & [?|[? _]] & _).
Qed.

Lemma show_reading_sets_disp r key id render text st :
  render_as render text true →
  globals (show_reading r key id render st).2 = globals st
  ∨ ∃ f v, own_property r key = Some f ∧ own_property f (js "Ok") = Some v
           ∧ globals (show_reading r key id render st).2
             = <[js "disp" := v]> (globals st).
Proof.
  intros Hr. rewrite (show_reading_run _ _ _ _ _ _ _ Hr).
  destruct (tagged r key) as [[v|]|err] eqn:E; try by left.
  destruct (tagged_Some _ _ _ E) as (f & Hf & Hv).
  destruct (block_run_changes id text true v st) as (_ & _ & [?|[_ ?]] & _);
    [by left|right; eauto].
Qed.

(** X16. For every response and every page, the response handler
    (whether it returns or throws) leaves the cookie string and the
    requests made so far as they are, and either leaves the global
    variables as they are or sets exactly one, [disp], to the payload
    [r.ORP.Ok]. *)
Theorem handler_leaves_the_rest r st :
  cookie (response_handler r st).2 = cookie st
  ∧ requests (response_handler r st).2 = requests st
  ∧ (globals (response_handler r st).2 = globals st
     ∨ ∃ f v, own_property r (js "ORP") = Some f
              ∧ own_property f (js "Ok") = Some v
              ∧ globals (response_handler r st).2
                = <[js "disp" := v]> (globals st)).
Proof.
  destruct (response_handler_frame r st) as (Hc & Hq & _).
  split; [done|]. split; [done|].
  unfold response_handler. rewrite bind_run.
  pose proof (show_reading_globals r (js "pH") (js "ph-reading") _ _ st
                render_1_as) as G1.
  destruct (show_reading r (js "pH") _ _ st) as [[[]|e1] st1];
    cbn [snd] in *; [|by left].
  rewrite bind_run.
  pose proof (show_reading_globals r (js "T") (js "temp-reading") _ _ st1
                render_1_as) as G2.
  destruct (show_reading r (js "T") _ _ st1) as [[[]|e2] st2];
    cbn [snd] in *; [|left; congruence].
  rewrite bind_run.
  pose proof (show_reading_globals r (js "ec") (js "ec-reading") _ _ st2
                render_ec_as) as G3.
  destruct (show_reading r (js "ec") _ _ st2) as [[[]|e3] st3];
    cbn [snd] in *; [|left; congruence].
  destruct (show_reading_sets_disp r (js "ORP") (js "orp-reading") _ _ st3
              render_ORP_as) as [G4|(f & v & Hf & Hv & G4)].
  - left. congruence.
  - right. exists f, v. rewrite G4. repeat split; try done. congruence.
Qed.

Lemma join_elements_cons a elems :
  join_elements (a :: elems)
  = s ← match a with
        | VUndefined | VNull => Normal []
        | _ => ToString a
        end;
    match elems with
    | [] => Normal s
    | _ :: _ => r ← join_elements elems; Normal (s ++ js "," ++ r)
    end.
Proof. reflexivity. Qed.

Lemma ToString_error v err : ToString v = Throw err → err = TypeError.
Proof.
  revert v err. fix IH 1. intros v err.
  destruct v as [| | b | x | s | elems | props].
  1-5: clear IH; discriminate.
  - change (ToString (VArr elems)) with (join_elements elems).
    revert err.
    refine ((fix IHl (l : list value) :
               ∀ err, join_elements l = Throw err → err = TypeError :=
               match l with
               | [] => _
               | a :: l' => _
               end) elems).
    + clear IH IHl. discriminate.
    + intros err. rewrite join_elements_cons.
      pose proof (IHl l') as Hl. pose proof (IH a) as Ha. clear IH IHl.
      destruct (match a with VUndefined | VNull => Normal [] | _ => ToString a end)
        as [s|e] eqn:Ea; cbn [mbind completion_bind].
      * destruct l' as [|a' l']; [discriminate|].
        destruct (join_elements (a' :: l')) as [t|e] eqn:Et; [discriminate|].
        intros [= <-]. exact (Hl _ eq_refl).
      * intros [= <-]. destruct a; try discriminate; exact (Ha _ Ea).
  - clear IH. cbn [ToString]. destruct (props !! js "toString"); congruence.
Qed.

Lemma ToNumber_error v err : ToNumber v = Throw err → err = TypeError.
Proof.
  destruct v as [| | b | x | s | elems | props]; try discriminate;
    cbn [ToNumber];
    match goal with
    | |- StringToNumber <$> ToString ?v = _ → _ =>
        destruct (ToString v) eqn:E; [discriminate|];
        intros [= <-]; by apply ToString_error in E
    end.
Qed.

Lemma format_error v p err :
  (p ≤ 100)%nat → format v p = Throw err → err = TypeError.
Proof.
  intros Hp. unfold format.
  destruct (ToNumber v) as [x|e] eqn:E; cbn [mbind completion_bind].
  - intros H. destruct (format_returns x p Hp) as [t Ht].
    unfold format in Ht. cbn [ToNumber mbind completion_bind] in Ht. congruence.
  - intros [= <-]. by apply ToNumber_error in E.
Qed.

Lemma get_error v key err : get v key = Throw err → err = TypeError.
Proof. destruct v; simpl; congruence. Qed.

Lemma hasOwnProperty_error v key err :
  hasOwnProperty v key = Throw err → err = TypeError.
Proof.
  unfold hasOwnProperty.
  destruct v; try congruence;
    destruct (own_property _ (js "hasOwnProperty")); congruence.
Qed.

Lemma tagged_error r key err : tagged r key = Throw err → err = TypeError.
Proof.
  unfold tagged. run.
  destruct (get r key) as [f|e] eqn:Ef;
    [|intros [= <-]; by apply get_error in Ef].
  destruct (hasOwnProperty f (js "Ok")) as [[|]|e] eqn:Eh;
    [|done|intros [= <-]; by apply hasOwnProperty_error in Eh].
  destruct (get f (js "Ok")) as [v|e] eqn:Ev; [done|].
  intros [= <-]. by apply get_error in Ev.
Qed.

Lemma show_reading_error r key id render text sets st err st' :
  render_as render text sets →
  (∀ v e, text v = Throw e → e = TypeError) →
  show_reading r key id render st = (Throw err, st') → err = TypeError.
Proof.
  intros Hr Ht. rewrite (show_reading_run _ _ _ _ _ _ _ Hr).
  destruct (tagged r key) as [[v|]|e] eqn:E.
  - unfold block_run. destruct (text v) as [t|e] eqn:Et.
    + destruct (dom st !! id); congruence.
    + intros [= <- _]. by eapply Ht.
  - done.
  - intros [= <- _]. by apply tagged_error in E.
Qed.

Lemma payload_text_error :
  (∀ v e, payload_text_1 v = Throw e → e = TypeError)
  ∧ (∀ v e, payload_text_ec v = Throw e → e = TypeError)
  ∧ (∀ v e, payload_text_0 v = Throw e → e = TypeError).
Proof.
  split; [|split]; intros v e.
  - apply format_error. lia.
  - unfold payload_text_ec.
    destruct (ToNumber v) as [x|e'] eqn:E; cbn [mbind completion_bind].
    + apply format_error. lia.
    + intros [= <-]. by apply ToNumber_error in E.
  - apply format_error. lia.
Qed.

(** Whatever the response handler throws is a TypeError. *)
Lemma response_handler_error r st err st' :
  response_handler r st = (Throw err, st') → err = TypeError.
Proof.
  destruct payload_text_error as (T1 & Tec & T0).
  unfold response_handler. rewrite bind_run.
  destruct (show_reading r (js "pH") _ _ st) as [[[]|e1] st1] eqn:E1.
  2:{ intros [= <- _]. by eapply show_reading_error, E1; [apply render_1_as|]. }
  rewrite bind_run.
  destruct (show_reading r (js "T") _ _ st1) as [[[]|e2] st2] eqn:E2.
  2:{ intros [= <- _]. by eapply show_reading_error, E2; [apply render_1_as|]. }
  rewrite bind_run.
  destruct (show_reading r (js "ec") _ _ st2) as [[[]|e3] st3] eqn:E3.
  2:{ intros [= <- _]. by eapply show_reading_error, E3; [apply render_ec_as|]. }
  intros E4. by eapply show_reading_error, E4; [apply render_ORP_as|].
Qed.

(** The test of the tag throws on a field that is [null]. *)
Lemma show_reading_null r key id render st :
  has_field r key VNull →
  show_reading r key id render st = (Throw TypeError, st).
Proof.
  intros H. unfold show_reading. rewrite bind_run. unfold lift.
  by rewrite (get_field _ _ _ H).
Qed.

Lemma index_of_letters key len c :
  c ∈ key → ¬ (48 ≤ c ≤ 57)%N → index_of key len = None.
Proof.
  intros Hc Hd. unfold index_of.
  generalize (seq 0 len). intros l.
  induction l as [|i l IH]; [done|]. cbn [List.find].
  rewrite bool_decide_false; [done|].
  intros <-. by apply digits_range in Hc.
Qed.

(** A number, a string, a boolean and an array carry no tag. *)
Lemma bare_failure f : bare f = true → failure f.
Proof.
  assert (∀ len, index_of (js "hasOwnProperty") len = None) as Hh.
  { intros len. apply (index_of_letters _ _ 104%N); [|lia].
    vm_compute. left. }
  assert (∀ len, index_of (js "Ok") len = None) as Ho.
  { intros len. apply (index_of_letters _ _ 79%N); [|lia].
    vm_compute. left. }
  destruct f; try done; intros _; (split; [split; [done|split; [done|]]|]);
    try done; cbn [own_property];
    rewrite bool_decide_false by distinct; by rewrite ?Hh, ?Ho.
Qed.

(** X17. When each of the four fields is there, is not [null], has no
    member of its own named [hasOwnProperty] and has no member [Ok], the
    response handler returns and leaves the whole page as it was, on every
    page, with or without the display elements; a reading that comes as a
    bare number, string, boolean or array is such a field.  A field that
    is [null] is not: when one of the four fields is [null] the handler
    throws a TypeError. *)
Theorem handler_skips_untagged :
  (∀ f, bare f = true → failure f)
  ∧ (∀ r f1 f2 f3 f4 st,
       has_field r (js "pH") f1 → has_field r (js "T") f2 →
       has_field r (js "ec") f3 → has_field r (js "ORP") f4 →
       failure f1 → failure f2 → failure f3 → failure f4 →
       response_handler r st = (Normal (), st))
  ∧ (∀ r key st,
       key ∈ [js "pH"; js "T"; js "ec"; js "ORP"] →
       has_field r key VNull →
       ∃ st', response_handler r st = (Throw TypeError, st')).
Proof.
  split; [apply bare_failure|]. split.
  - intros r f1 f2 f3 f4 st H1 H2 H3 H4 F1 F2 F3 F4. unfold response_handler.
    rewrite bind_run, (show_reading_failure _ _ _ _ _ _ H1 F1).
    rewrite bind_run, (show_reading_failure _ _ _ _ _ _ H2 F2).
    rewrite bind_run, (show_reading_failure _ _ _ _ _ _ H3 F3).
    apply (show_reading_failure _ _ _ _ _ _ H4 F4).
  - intros r key st Hkey Hnull.
    assert (∃ err st', response_handler r st = (Throw err, st'))
      as (err & st' & E).
    { unfold response_handler.
      repeat (apply elem_of_cons in Hkey as [->|Hkey]).
      - eexists _, _. apply bind_throws_first. by apply show_reading_null.
      - apply bind_throws. intros _ st1.
        eexists _, _. apply bind_throws_first. by apply show_reading_null.
      - do 2 (apply bind_throws; intros _ ?).
        eexists _, _. apply bind_throws_first. by apply show_reading_null.
      - do 3 (apply bind_throws; intros _ ?).
        eexists _, _. by apply show_reading_null.
      - by apply elem_of_nil in Hkey. }
    exists st'. by rewrite E, (response_handler_error _ _ _ _ E).
Qed.

Lemma handler_skips_untagged_witness :
  response_handler response_bare empty_page = (Normal (), empty_page)
  ∧ response_handler response_all_failed (example_page [])
    = (Normal (), example_page [])
  ∧ ∃ st', response_handler response_null_pH (example_page [])
           = (Throw TypeError, st').
Proof.
  destruct handler_skips_untagged as (Hbare & Hskip & Hnull).
  split; [|split].
  - apply (Hskip response_bare
             (VNum (Number.of_decimal 701 (-2))) (VStr (js "25.0"))
             (VArr [VNum (Number.of_decimal 15 (-4))]) (VBool true));
      try (vm_compute; reflexivity); apply Hbare; reflexivity.
  - apply (Hskip response_all_failed Err Err Err Err);
      try (vm_compute; reflexivity); is_variant.
  - apply (Hnull response_null_pH (js "pH")).
    + apply list_elem_of_here.
    + vm_compute. reflexivity.
Defined.

(** X18. When [pH] carries the tag [Ok] with a Number and the page has no
    element ph-reading, the response handler throws a TypeError and leaves
    the page as it was; the fields after [pH] are not looked at. *)
Theorem handler_needs_its_element r f x st :
  has_field r (js "pH") f → success f x →
  dom st !! js "ph-reading" = None →
  response_handler r st = (Throw TypeError, st).
Proof.
  intros Hf [Hi Hx] Hel. unfold response_handler. rewrite bind_run.
  rewrite (show_reading_run _ _ _ _ _ _ _ render_1_as).
  rewrite (tagged_inspectable _ _ _ Hf Hi), Hx.
  unfold block_run, payload_text_1.
  destruct (format_returns x 1) as [t ->]; [lia|].
  by rewrite Hel.
Qed.

Lemma handler_needs_its_element_witness :
  response_handler example_response empty_page = (Throw TypeError, empty_page).
Proof.
  apply (handler_needs_its_element example_response
           (Ok (Number.of_decimal 701 (-2))) (Number.of_decimal 701 (-2))).
  - vm_compute. reflexivity.
  - apply success_Ok.
  - vm_compute. reflexivity.
Defined.

(** A block leaves the texts of the other elements alone. *)
Lemma block_keeps_other r key id render text sets st j :
  render_as render text sets → j ≠ id →
  dom (show_reading r key id render st).2 !! j = dom st !! j.
Proof.
  intros Hr Hne.
  destruct (show_reading_frame r key id render text sets st Hr)
    as (_ & _ & _ & Hd).
  destruct (decide (dom (show_reading r key id render st).2 !! j = dom st !! j))
    as [E|N]; [done|].
  by destruct (Hd j N) as [? _].
Qed.

(** X19. When [pH] carries the tag [Ok] with a payload that converts to
    the Number [x] (a Number, a numeric string, [null], a boolean) and the
    element ph-reading exists, then after the response handler ph-reading
    shows [format(x, 1)], whatever the rest of the response is and whether
    the handler goes on to return or to throw. *)
Theorem handler_shows_pH_first r f v x st :
  has_field r (js "pH") f → inspectable f →
  own_property f (js "Ok") = Some v → ToNumber v = Normal x →
  is_Some (dom st !! js "ph-reading") →
  ∃ t, format (VNum x) 1 = Normal t
       ∧ dom (response_handler r st).2 !! js "ph-reading" = Some t.
Proof.
  intros Hf Hi Hv Hx [old Hel].
  destruct (format_returns x 1) as [t Ht]; [lia|]. exists t. split; [done|].
  unfold response_handler. rewrite bind_run.
  rewrite (show_reading_run _ _ _ _ _ _ _ render_1_as).
  rewrite (tagged_inspectable _ _ _ Hf Hi), Hv.
  unfold block_run, payload_text_1. rewrite (format_coerces _ _ _ Hx), Ht, Hel.
  set (st1 := with_text _ _ _).
  assert (dom st1 !! js "ph-reading" = Some t) as H1
    by (subst st1; simpl; by rewrite lookup_insert_eq).
  rewrite bind_run.
  pose proof (block_keeps_other r (js "T") (js "temp-reading") render_1 _ _ st1
                (js "ph-reading") render_1_as ltac:(distinct)) as K2.
  destruct (show_reading r (js "T") _ _ st1) as [[[]|e2] st2];
    cbn [snd] in *; [|congruence].
  rewrite bind_run.
  pose proof (block_keeps_other r (js "ec") (js "ec-reading") render_ec _ _ st2
                (js "ph-reading") render_ec_as ltac:(distinct)) as K3.
  destruct (show_reading r (js "ec") _ _ st2) as [[[]|e3] st3];
    cbn [snd] in *; [|congruence].
  pose proof (block_keeps_other r (js "ORP") (js "orp-reading") render_ORP _ _
                st3 (js "ph-reading") render_ORP_as ltac:(distinct)) as K4.
  congruence.
Qed.

Lemma handler_shows_pH_first_witness :
  ∃ t, format (VNum (Number.of_decimal 701 (-2))) 1 = Normal t
       ∧ dom (response_handler response_text_pH (example_page [])).2
           !! js "ph-reading" = Some t.
Proof.
  apply (handler_shows_pH_first response_text_pH
           (VObj {[ js "Ok" := VStr (js "7.01") ]}) (VStr (js "7.01"))).
  - vm_compute. reflexivity.
  - split; [discriminate|split; [discriminate|vm_compute; reflexivity]].
  - vm_compute. reflexivity.
  - vm_compute. reflexivity.
  - vm_compute. eauto.
Defined.

Lemma hasOwnProperty_Normal f key b :
  hasOwnProperty f key = Normal b →
  b = bool_decide (is_Some (own_property f key)).
Proof.
  unfold hasOwnProperty.
  destruct f; try done;
    (destruct (own_property _ (js "hasOwnProperty")); [done|]);
    congruence.
Qed.

(** What the test of the tag finds, when it returns. *)
Lemma tagged_Normal r key o :
  tagged r key = Normal o →
  ∀ f, own_property r key = Some f → o = own_property f (js "Ok").
Proof.
  unfold tagged. run.
  destruct (get r key) as [f'|] eqn:Ef; [|done].
  apply get_Normal in Ef.
  intros H f Hf. rewrite Hf in Ef. simpl in Ef. subst f'.
  destruct (hasOwnProperty f (js "Ok")) as [b|] eqn:Eh; [|done].
  apply hasOwnProperty_Normal in Eh. subst b.
  case_bool_decide as Hok.
  - destruct Hok as [v Hv]. destruct (get f (js "Ok")) as [v'|] eqn:Ev; [|done].
    apply get_Normal in Ev. rewrite Hv in Ev. simpl in Ev. congruence.
  - rewrite <- eq_None_not_Some in Hok. congruence.
Qed.

(** A block that returns has shown its payload, or found no tag. *)
Lemma show_reading_returns r key id render text sets st st' f :
  render_as render text sets →
  show_reading r key id render st = (Normal (), st') →
  own_property r key = Some f →
  match own_property f (js "Ok") with
  | Some v => ∃ t, text v = Normal t ∧ dom st' !! id = Some t
  | None => dom st' !! id = dom st !! id
  end.
Proof.
  intros Hr. rewrite (show_reading_run _ _ _ _ _ _ _ Hr).
  destruct (tagged r key) as [o|] eqn:E; [|done].
  intros H Hf. rewrite <- (tagged_Normal _ _ _ E f Hf).
  destruct o as [v|]; [|by injection H as <-].
  unfold block_run in H. destruct (text v) as [t|]; [|done].
  destruct (dom st !! id); [|done]. injection H as <-.
  exists t. split; [done|]. destruct sets; simpl; by rewrite lookup_insert_eq.
Qed.

Lemma show_reading_shows r key id render text sets st st' :
  render_as render text sets →
  show_reading r key id render st = (Normal (), st') →
  shows r key id text st st'.
Proof.
  intros Hr H. destruct (own_property r key) as [f|] eqn:Ef.
  - exists f. split; [done|]. by eapply show_reading_returns.
  - by rewrite show_reading_absent in H.
Qed.

Lemma shows_before r key id text st0 st st' :
  dom st !! id = dom st0 !! id → shows r key id text st st' →
  shows r key id text st0 st'.
Proof.
  intros E (f & Hf & H). exists f. split; [done|].
  destruct (own_property f (js "Ok")); [done|]. congruence.
Qed.

Lemma shows_after r key id text st st1 st' :
  dom st' !! id = dom st1 !! id → shows r key id text st st1 →
  shows r key id text st st'.
Proof.
  intros E (f & Hf & H). exists f. split; [done|].
  destruct (own_property f (js "Ok")) as [v|]; [|congruence].
  destruct H as (t & Ht & H). exists t. split; [done|]. congruence.
Qed.

(** X20. Whenever the response handler returns, for whatever response and
    page, each of the four fields was there, and the element of each
    field shows the right text: for a field with the tag [Ok], the
    formatted payload ([format(v, 1)] for pH and T,
    [format(v * 1000000, 0)] for ec, [format(v, 0)] for ORP, with the
    payload converted to a Number when it is not one); for a field
    without the tag, what it showed before. *)
Theorem handler_returns_shown r st st' :
  response_handler r st = (Normal (), st') →
  shows r (js "pH") (js "ph-reading") payload_text_1 st st'
  ∧ shows r (js "T") (js "temp-reading") payload_text_1 st st'
  ∧ shows r (js "ec") (js "ec-reading") payload_text_ec st st'
  ∧ shows r (js "ORP") (js "orp-reading") payload_text_0 st st'.
Proof.
  unfold response_handler. rewrite bind_run.
  destruct (show_reading r (js "pH") _ _ st) as [[[]|e1] st1] eqn:E1; [|done].
  rewrite bind_run.
  destruct (show_reading r (js "T") _ _ st1) as [[[]|e2] st2] eqn:E2; [|done].
  rewrite bind_run.
  destruct (show_reading r (js "ec") _ _ st2) as [[[]|e3] st3] eqn:E3; [|done].
  intros E4.
  pose proof (show_reading_shows _ _ _ _ _ _ _ _ render_1_as E1) as S1.
  pose proof (show_reading_shows _ _ _ _ _ _ _ _ render_1_as E2) as S2.
  pose proof (show_reading_shows _ _ _ _ _ _ _ _ render_ec_as E3) as S3.
  pose proof (show_reading_shows _ _ _ _ _ _ _ _ render_ORP_as E4) as S4.
  assert (∀ j, j ≠ js "ph-reading" → dom st1 !! j = dom st !! j) as K1.
  { intros j Hj.
    pose proof (block_keeps_other r (js "pH") _ _ _ _ st j render_1_as Hj)
      as K.
    by rewrite E1 in K. }
  assert (∀ j, j ≠ js "temp-reading" → dom st2 !! j = dom st1 !! j) as K2.
  { intros j Hj.
    pose proof (block_keeps_other r (js "T") _ _ _ _ st1 j render_1_as Hj)
      as K.
    by rewrite E2 in K. }
  assert (∀ j, j ≠ js "ec-reading" → dom st3 !! j = dom st2 !! j) as K3.
  { intros j Hj.
    pose proof (block_keeps_other r (js "ec") _ _ _ _ st2 j render_ec_as Hj)
      as K.
    by rewrite E3 in K. }
  assert (∀ j, j ≠ js "orp-reading" → dom st' !! j = dom st3 !! j) as K4.
  { intros j Hj.
    pose proof (block_keeps_other r (js "ORP") _ _ _ _ st3 j render_ORP_as Hj)
      as K.
    by rewrite E4 in K. }
  split; [|split; [|split]].
  - eapply shows_after; [|exact S1].
    rewrite K4, K3, K2 by distinct. done.
  - eapply shows_after; [|eapply shows_before; [|exact S2]].
    + rewrite K4, K3 by distinct. done.
    + apply K1. distinct.
  - eapply shows_after; [|eapply shows_before; [|exact S3]].
    + rewrite K4 by distinct. done.
    + rewrite K2, K1 by distinct. done.
  - eapply shows_before; [|exact S4].
    rewrite K3, K2, K1 by distinct. done.
Qed.

Lemma handler_returns_shown_witness :
  shows response_pH_failed (js "pH") (js "ph-reading") payload_text_1
    (example_page []) (response_handler response_pH_failed (example_page [])).2
  ∧ shows response_pH_failed (js "T") (js "temp-reading") payload_text_1
      (example_page [])
      (response_handler response_pH_failed (example_page [])).2
  ∧ shows response_pH_failed (js "ec") (js "ec-reading") payload_text_ec
      (example_page [])
      (response_handler response_pH_failed (example_page [])).2
  ∧ shows response_pH_failed (js "ORP") (js "orp-reading") payload_text_0
      (example_page [])
      (response_handler response_pH_failed (example_page [])).2.
Proof.
  apply (handler_returns_shown response_pH_failed (example_page [])).
  vm_compute. reflexivity.
Defined.

(** ** The invocation and its promise *)

(** X21. When an invocation of [update_readings] throws to its caller,
    the error is a URIError, thrown by [getCookie] on the cookie string,
    and the page is as it was (no request was made).  Whatever goes wrong
    after the request, in the transport, in the parsing or in the response
    handler, does not reach the caller. *)
Theorem update_readings_throws_only_URIError server st err st' :
  update_readings server st = (Throw err, st') →
  err = URIError ∧ st' = st ∧ getCookie (cookie st) = Throw URIError.
Proof.
  intros H. pose proof (update_readings_request server st) as R.
  destruct (getCookie (cookie st)) as [token|err'] eqn:E.
  - destruct R as (outcome & st'' & R & _). congruence.
  - rewrite R in H. injection H as <- <-.
    by rewrite (getCookie_error _ _ E).
Qed.

Lemma update_readings_throws_only_URIError_witness :
  URIError = URIError
  ∧ example_page (js "csrftoken=%") = example_page (js "csrftoken=%")
  ∧ getCookie (cookie (example_page (js "csrftoken=%"))) = Throw URIError.
Proof.
  apply (update_readings_throws_only_URIError (answering example_response)
           (example_page (js "csrftoken=%"))).
  vm_compute. reflexivity.
Defined.

(** X22. Whenever the promise at the end of the chain is rejected, the
    error is a TypeError (no response came, or the response handler
    threw: the handler throws nothing else, whatever the response) or a
    SyntaxError, and that only when the body of the response is no JSON
    text. *)
Theorem rejection_kinds rep st err st' :
  on_reply rep st = (Normal (Rejected err), st') →
  err = TypeError ∨ err = SyntaxError ∧ rep = Response None.
Proof.
  destruct rep as [|[r|]]; cbn [on_reply].
  - intros [= <- _]. by left.
  - destruct (response_handler r st) as [[[]|e] st1] eqn:E; [done|].
    intros [= <- _]. left. by eapply response_handler_error.
  - intros [= <- _]. by right.
Qed.

Lemma rejection_kinds_witness :
  TypeError = TypeError
  ∨ TypeError = SyntaxError ∧ Response (Some response_null_pH) = Response None.
Proof.
  apply (rejection_kinds (Response (Some response_null_pH)) (example_page [])
           TypeError
           (on_reply (Response (Some response_null_pH)) (example_page [])).2).
  vm_compute. reflexivity.
Defined.

Lemma blind_seq (m k : M unit) : blind m → blind k → blind (m ;; k).
Proof.
  intros Hm Hk req st. rewrite !bind_run, Hm.
  destruct (m st) as [[[]|err] st1]; cbn [fst snd]; [|done]. apply Hk.
Qed.

Lemma show_reading_blind r key id render text sets :
  render_as render text sets → blind (show_reading r key id render).
Proof.
  intros Hr req st. rewrite !(show_reading_run _ _ _ _ _ _ _ Hr).
  destruct (tagged r key) as [[v|]|err]; try done.
  unfold block_run. cbn [dom with_request].
  destruct (text v) as [t|err]; [destruct (dom st !! id)|];
    by destruct sets.
Qed.

Lemma response_handler_blind r : blind (response_handler r).
Proof.
  unfold response_handler.
  repeat apply blind_seq; eapply show_reading_blind;
    first [apply render_1_as | apply render_ec_as | apply render_ORP_as].
Qed.

(** X23. When [getCookie] returns a token and the server answers the
    request with a JSON body [r], an invocation of [update_readings] makes
    the request and then does to the page exactly what the response
    handler does to it on [r]: the promise is fulfilled when the handler
    returns and rejected with its error when it throws, and the page is the
    one the handler leaves, with the request added to those made. *)
Theorem update_readings_handles server st token r :
  getCookie (cookie st) = Normal token →
  server (readings_request token) = Response (Some r) →
  update_readings server st
  = (Normal (match (response_handler r st).1 with
             | Normal _ => Fulfilled
             | Throw err => Rejected err
             end),
     with_request (readings_request token) (response_handler r st).2).
Proof.
  intros Hc Hs. unfold update_readings, document_cookie. run.
  rewrite Hc. unfold fetch. rewrite Hs. cbn [on_reply].
  change (Page (dom st) (globals st) (cookie st)
            (requests st ++ [readings_request token]))
    with (with_request (readings_request token) st).
  rewrite response_handler_blind.
  by destruct (response_handler r st) as [[[]|err] st'].
Qed.

Lemma update_readings_handles_witness :
  update_readings (answering response_without_T)
    (example_page (js "csrftoken=abc123"))
  = (Normal (match (response_handler response_without_T
                      (example_page (js "csrftoken=abc123"))).1 with
             | Normal _ => Fulfilled
             | Throw err => Rejected err
             end),
     with_request (readings_request (VStr (js "abc123")))
       (response_handler response_without_T
          (example_page (js "csrftoken=abc123"))).2).
Proof.
  apply (update_readings_handles (answering response_without_T)
           (example_page (js "csrftoken=abc123")) (VStr (js "abc123"))
           response_without_T).
  - vm_compute. reflexivity.
  - reflexivity.
Defined.
